(** * mlpack linear regression: a shallow embedding of
    [src/mlpack/methods/linear_regression/linear_regression.cpp]

    The C++ class [LinearRegression] owns one Armadillo column vector,
    [parameters].  Its fitting constructor augments the caller's predictors
    with a row of ones, factors the transposed matrix with [arma::qr] and
    obtains the coefficients from [arma::solve]; [predict] evaluates the
    fitted affine map on new points; [load] and [save] delegate to mlpack's
    [data::Load] and [data::Save].

    Conventions of the embedding.
    - Scalars ([double] in the source) are an arbitrary type [F] with the
      operations the source uses and no laws.  Every statement that needs
      exact arithmetic says so through explicit ring hypotheses.  The
      instance [double_scalar] is IEEE 754 binary64, [Z_scalar] the integers.
    - An Armadillo matrix is a record of its dimensions and its column-major
      memory; element [(i, j)] lives at offset [i + j * n_rows].
    - Unsigned machine arithmetic written in the source ([size_t], Armadillo's
      [uword]) is arithmetic on [Z] with the wrap-around written out.
    - A call either returns, throws (a failed Armadillo run-time check) or
      aborts the process (a failed [assert]). *)

From Stdlib Require Import ZArith Lia Ring ZArithRing Floats.
From stdpp Require Import base option list list_numbers gmap strings.

#[local] Open Scope Z_scope.

(** ** Scalars *)

(** The arithmetic of the element type, as far as the source uses it: the
    constants [0] and [1] ([zeros], [ones]) and [+], [*]. *)
Class Scalar (F : Type) := {
  fzero : F;
  fone : F;
  fadd : F → F → F;
  fmul : F → F → F;
}.

(** Addition is exact: associative, with [0] neutral.  (Floating-point
    addition is not; statements that sum in a different order than the source
    assume this.) *)
Class ExactSum (F : Type) {SF : Scalar F} : Prop := {
  fadd_assoc : ∀ x y z : F, fadd x (fadd y z) = fadd (fadd x y) z;
  fadd_0_l : ∀ x : F, fadd fzero x = x;
  fadd_0_r : ∀ x : F, fadd x fzero = x;
}.

(** Exact arithmetic in an ordered ring without zero divisors, such as the
    reals that [double] approximates.  The least-squares statements are made
    under these laws; subtraction and order are needed to state them. *)
Class OrderedRing (F : Type) {SF : Scalar F} := {
  fopp : F → F;
  fsub : F → F → F;
  fle : F → F → Prop;
  F_ring : ring_theory fzero fone fadd fmul fsub fopp eq;
  fle_refl : ∀ x : F, fle x x;
  fle_antisym : ∀ x y : F, fle x y → fle y x → x = y;
  fle_trans : ∀ x y z : F, fle x y → fle y z → fle x z;
  fle_add_l : ∀ x y z : F, fle y z → fle (fadd x y) (fadd x z);
  fle_square : ∀ x : F, fle fzero (fmul x x);
  f_integral : ∀ x y : F, fmul x y = fzero → x = fzero ∨ y = fzero;
}.

(** Exact integer arithmetic, used to run the model on concrete inputs. *)
Definition Z_scalar : Scalar Z :=
  {| fzero := 0; fone := 1; fadd := Z.add; fmul := Z.mul |}.

(** ** Machine words *)

(** The widths of Armadillo's [uword] (the type of [n_rows], [n_cols] and of
    every index) and of [size_t].  Neither typedef is part of the translated
    file, so both widths are parameters of the model. *)
Class Target := {
  uword_bits : Z;
  size_t_bits : Z;
}.

(** The usual LP64 build of the period: 32-bit [uword], 64-bit [size_t]. *)
Definition lp64_u32 : Target := {| uword_bits := 32; size_t_bits := 64 |}.

(** A build with 64-bit [uword]. *)
Definition lp64_u64 : Target := {| uword_bits := 64; size_t_bits := 64 |}.

(** Unsigned widths are positive and [size_t] holds every [uword]. *)
Definition target_ok (T : Target) : Prop :=
  0 < uword_bits ∧ uword_bits ≤ size_t_bits.

Definition to_uword {T : Target} (z : Z) : Z := z `mod` 2 ^ uword_bits.
Definition to_size_t {T : Target} (z : Z) : Z := z `mod` 2 ^ size_t_bits.

(** ** Outcomes of a call *)

Inductive outcome (A : Type) : Type :=
  | Returned (a : A)   (* normal return *)
  | Thrown             (* std::logic_error raised by an Armadillo check *)
  | Aborted.           (* assert() failed: the process is aborted *)
Arguments Returned {A} a.
Arguments Thrown {A}.
Arguments Aborted {A}.

#[global] Instance outcome_ret : MRet outcome := λ A a, Returned a.
#[global] Instance outcome_bind : MBind outcome := λ A B f m,
  match m with
  | Returned a => f a
  | Thrown => Thrown
  | Aborted => Aborted
  end.

(** [for (i = lo; i < hi; ++i) body], threading the loop's state. *)
Fixpoint for_each {State : Type} (body : Z → State → outcome State)
    (idx : list Z) (s : State) : outcome State :=
  match idx with
  | [] => Returned s
  | i :: idx => s' ← body i s; for_each body idx s'
  end.

Definition for_loop {State : Type} (lo hi : Z)
    (body : Z → State → outcome State) (s : State) : outcome State :=
  for_each body (seqZ lo (hi - lo)) s.

(** A computation that also updates one object passed by reference; the
    object's state is kept when the computation throws. *)
Definition stateful (S A : Type) : Type := S → outcome A * S.

#[global] Instance stateful_ret {S} : MRet (stateful S) :=
  λ A a s, (Returned a, s).
#[global] Instance stateful_bind {S} : MBind (stateful S) := λ A B f m s,
  match m s with
  | (Returned a, s') => f a s'
  | (Thrown, s') => (Thrown, s')
  | (Aborted, s') => (Aborted, s')
  end.

Definition read {S} : stateful S S := λ s, (Returned s, s).
Definition lift {S A} (o : outcome A) : stateful S A := λ s, (o, s).
Definition update {S} (f : S → outcome S) : stateful S unit := λ s,
  match f s with
  | Returned s' => (Returned (), s')
  | Thrown => (Thrown, s)
  | Aborted => (Aborted, s)
  end.

(** ** Armadillo matrices *)

(** Modelled from the spec: [arma::Mat] is declared by the Armadillo library,
    not by the repository.  A matrix is its two dimensions and its memory. *)
Record mat (F : Type) : Type := Mat {
  n_rows : Z;
  n_cols : Z;
  mem : list F;   (* column-major *)
}.
Arguments Mat {F} n_rows n_cols mem.
Arguments n_rows {F} m.
Arguments n_cols {F} m.
Arguments mem {F} m.

Definition n_elem {F} (M : mat F) : Z := n_rows M * n_cols M.

(** The class invariant of [arma::Mat]: the memory holds [n_rows * n_cols]
    elements. *)
Definition mat_wf {F} (M : mat F) : Prop :=
  0 ≤ n_rows M ∧ 0 ≤ n_cols M ∧ Z.of_nat (length (mem M)) = n_elem M.

(** Both dimensions are values of type [uword].  (The constructor's input
    must still satisfy this with the row of ones added.) *)
Definition mat_fits {T : Target} {F} (M : mat F) : Prop :=
  n_rows M < 2 ^ uword_bits ∧ n_cols M < 2 ^ uword_bits.

Section Armadillo.
Context {F : Type} {SF : Scalar F}.

(** The Armadillo primitives the source calls are library code, not part of
    the repository's sources.  Each one below follows Armadillo's documented
    behaviour, with its run-time checks enabled (the library's default). *)

(** Unchecked read of element [(i, j)], zero outside the memory. *)
Definition get (M : mat F) (i j : Z) : F :=
  default fzero (mem M !! Z.to_nat (i + j * n_rows M)).

(** Modelled from the spec: Armadillo's [M(i)], checked linear access. *)
Definition elem (M : mat F) (i : Z) : outcome F :=
  if bool_decide (0 ≤ i < n_elem M)
  then from_option Returned Thrown (mem M !! Z.to_nat i)
  else Thrown.

(** Modelled from the spec: Armadillo's [M(i, j)], checked access by row and
    column. *)
Definition elem2 (M : mat F) (i j : Z) : outcome F :=
  if bool_decide ((0 ≤ i < n_rows M) ∧ (0 ≤ j < n_cols M))
  then from_option Returned Thrown (mem M !! Z.to_nat (i + j * n_rows M))
  else Thrown.

(** Modelled from the spec: Armadillo's [M(i) = v], checked linear store. *)
Definition set_elem (M : mat F) (i : Z) (v : F) : outcome (mat F) :=
  if bool_decide (0 ≤ i < n_elem M)
  then Returned (Mat (n_rows M) (n_cols M) (<[Z.to_nat i := v]> (mem M)))
  else Thrown.

(** The [r] by [c] matrix whose element [(i, j)] is [f i j]. *)
Definition generate (r c : Z) (f : Z → Z → F) : mat F :=
  Mat r c ((λ k, f (k `mod` r) (k `div` r)) <$> seqZ 0 (r * c)).

(** Modelled from the spec: Armadillo's [v.zeros(n)] on a row vector [v]
    resizes it to [1 x n] and fills it with zero. *)
Definition rowvec_zeros (v : mat F) (n : Z) : mat F :=
  Mat 1 n (replicate (Z.to_nat n) fzero).

(** Modelled from the spec: Armadillo's [v.zeros(n)] on a column vector [v]
    resizes it to [n x 1] and fills it with zero. *)
Definition colvec_zeros (v : mat F) (n : Z) : mat F :=
  Mat n 1 (replicate (Z.to_nat n) fzero).

(** Modelled from the spec: Armadillo's [v.ones(n)] on a row vector [v]
    resizes it to [1 x n] and fills it with one. *)
Definition rowvec_ones (v : mat F) (n : Z) : mat F :=
  Mat 1 n (replicate (Z.to_nat n) fone).

(** Modelled from the spec: a default-constructed Armadillo matrix or vector
    has no elements. *)
Definition empty_mat : mat F := Mat 0 0 [].

(** Modelled from the spec: Armadillo's [M += s] adds the scalar [s] to every
    element. *)
Definition plus_scalar (M : mat F) (s : F) : mat F :=
  Mat (n_rows M) (n_cols M) ((λ x, fadd x s) <$> mem M).

(** Modelled from the spec: Armadillo's [X.insert_rows(row_num, C)] inserts
    the rows of [C] before row [row_num] of [X]; it throws when [row_num] is
    past the last row or the numbers of columns differ. *)
Definition insert_rows (X : mat F) (row_num : Z) (C : mat F)
    : outcome (mat F) :=
  if bool_decide (0 ≤ row_num ≤ n_rows X ∧ n_cols C = n_cols X)
  then Returned (generate (n_rows X + n_rows C) (n_cols X) (λ i j,
         if bool_decide (i < row_num) then get X i j
         else if bool_decide (i < row_num + n_rows C) then get C (i - row_num) j
         else get X (i - n_rows C) j))
  else Thrown.

(** Modelled from the spec: Armadillo's [X.shed_row(row_num)] removes row
    [row_num]; it throws when there is no such row. *)
Definition shed_row (X : mat F) (row_num : Z) : outcome (mat F) :=
  if bool_decide (0 ≤ row_num < n_rows X)
  then Returned (generate (n_rows X - 1) (n_cols X) (λ i j,
         if bool_decide (i < row_num) then get X i j else get X (i + 1) j))
  else Thrown.

(** Modelled from the spec: Armadillo's [arma::trans(X)]. *)
Definition trans (X : mat F) : mat F :=
  generate (n_cols X) (n_rows X) (λ i j, get X j i).

(** The sum of [f k] for [lo ≤ k < lo + n]. *)
Definition fsum (lo n : Z) (f : Z → F) : F :=
  foldr (λ k acc, fadd (f k) acc) fzero (seqZ lo n).

(** Modelled from the spec: Armadillo's [A * B]; it throws when the inner
    dimensions differ.  Each element is summed from the last term to the
    first; the order Armadillo sums in is not specified. *)
Definition mat_mul (A B : mat F) : outcome (mat F) :=
  if bool_decide (n_cols A = n_rows B)
  then Returned (generate (n_rows A) (n_cols B) (λ i j,
         fsum 0 (n_cols A) (λ k, fmul (get A i k) (get B k j))))
  else Thrown.

(** The [n] by [n] identity matrix. *)
Definition identity (n : Z) : mat F :=
  generate n n (λ i j, if bool_decide (i = j) then fone else fzero).

(** The predictors with the row of ones in front: row [0] is constant one,
    row [i + 1] is row [i] of [X]. *)
Definition with_intercept_row (X : mat F) : mat F :=
  generate (n_rows X + 1) (n_cols X) (λ i j,
    if bool_decide (i = 0) then fone else get X (i - 1) j).

(** The matrix handed to [arma::qr]: one row per observation, the constant
    feature first. *)
Definition design (X : mat F) : mat F := trans (with_intercept_row X).

End Armadillo.

(** Row [i] of the product of [A], which has [n] columns, with the vector
    [v]; matrices and vectors are given by their elements. *)
Definition apply_to {F} {SF : Scalar F} (n : Z) (A : Z → Z → F) (v : Z → F)
    (i : Z) : F :=
  fsum 0 n (λ l, fmul (A i l) (v l)).

(** The product of [Q], which has [m] columns, with [R]. *)
Definition product {F} {SF : Scalar F} (m : Z) (Q R : Z → Z → F) (i k : Z)
    : F :=
  fsum 0 m (λ a, fmul (Q i a) (R a k)).

(** The squared norm of [y - A * v], for [A] of [N] rows and [n] columns. *)
Definition cost {F} {SF : Scalar F} {OR : OrderedRing F} (N n : Z)
    (A : Z → Z → F) (y v : Z → F) : F :=
  fsum 0 N (λ i, fmul (fsub (y i) (apply_to n A v i))
                      (fsub (y i) (apply_to n A v i))).

(** The normal equations: the residual of [p] is orthogonal to every column
    of [A]. *)
Definition normal_equations {F} {SF : Scalar F} {OR : OrderedRing F} (N n : Z)
    (A : Z → Z → F) (y p : Z → F) : Prop :=
  ∀ k, 0 ≤ k < n →
    fsum 0 N (λ i, fmul (A i k) (fsub (y i) (apply_to n A p i))) = fzero.

(** The squared norm of [A * (p - q)]. *)
Definition gap {F} {SF : Scalar F} {OR : OrderedRing F} (N n : Z)
    (A : Z → Z → F) (p q : Z → F) : F :=
  fsum 0 N (λ i, fmul (apply_to n A (λ l, fsub (p l) (q l)) i)
                      (apply_to n A (λ l, fsub (p l) (q l)) i)).

(** The residual sum of squares of the coefficients [beta] on the design
    matrix [A] and the responses [y]: the squared norm of [y - A * beta]. *)
Definition rss {F} {SF : Scalar F} {OR : OrderedRing F} (A y beta : mat F)
    : F :=
  cost (n_rows A) (n_cols A) (get A) (λ i, get y i 0) (λ k, get beta k 0).

(** [A] has full column rank: only the zero vector is mapped to zero. *)
Definition full_col_rank {F} {SF : Scalar F} (A : mat F) : Prop :=
  ∀ v : Z → F,
    (∀ i, 0 ≤ i < n_rows A → apply_to (n_cols A) (get A) v i = fzero) →
    ∀ k, 0 ≤ k < n_cols A → v k = fzero.

(** The two LAPACK-backed Armadillo routines the constructor calls.  They are
    parameters of the model: [qr X] yields the factors [(Q, R)] stored by
    [arma::qr(Q, R, X)], [solve out A B] the vector stored into [out] by
    [arma::solve(out, A, B)], and either may throw. *)
Class Lapack (F : Type) := {
  qr : mat F → outcome (mat F * mat F);
  solve : mat F → mat F → mat F → outcome (mat F);
}.

(** The storage routines: mlpack's [data::Load] and [data::Save] (not among
    the translated sources) and Armadillo's [Mat::load].  [fs] is the state
    of the external store.  Each routine reports success as a [bool]; the
    loaders return the matrix they leave in their by-reference argument. *)
Class Storage (F fs : Type) := {
  data_Load : string → mat F → fs → bool * mat F;
  data_Save : string → mat F → fs → bool * fs;
  arma_load : string → mat F → fs → bool * mat F;
}.

(** ** The class [LinearRegression] *)

Record LinearRegression (F : Type) : Type := {
  parameters : mat F;
}.
Arguments Build_LinearRegression {F} parameters.
Arguments parameters {F} l.

Section Methods.
Context {F : Type} {SF : Scalar F} {T : Target}.

(** [LinearRegression::LinearRegression(arma::mat& predictors,
    const arma::colvec& responses)].  The state threaded through the
    constructor is the caller's [predictors] matrix. *)
Definition LinearRegression_fit {L : Lapack F} (responses : mat F)
    : stateful (mat F) (LinearRegression F) :=
  predictors ← read;
  let ncols := to_size_t (n_cols predictors) in
  let ones := rowvec_ones empty_mat (to_uword ncols) in
  _ ← update (λ predictors, insert_rows predictors 0 ones);
  let parameters := colvec_zeros empty_mat (to_uword ncols) in
  predictors ← read;
  QR ← lift (qr (trans predictors));
  b ← lift (mat_mul (trans QR.1) responses);
  parameters ← lift (solve parameters QR.2 b);
  _ ← update (λ predictors, shed_row predictors 0);
  mret (Build_LinearRegression parameters).

(** The numerical part of the constructor: the calls between the insertion
    and the removal of the row of ones. *)
Definition coefficients {L : Lapack F} (responses X : mat F)
    : outcome (mat F) :=
  QR ← qr (design X);
  b ← mat_mul (trans QR.1) responses;
  solve (colvec_zeros empty_mat (n_cols X)) QR.2 b.

(** [LinearRegression::LinearRegression(const std::string& filename)]: the
    result of [parameters.load] is dropped. *)
Definition LinearRegression_from_file {fs} {St : Storage F fs}
    (filename : string) (st : fs) : LinearRegression F :=
  Build_LinearRegression (arma_load filename empty_mat st).2.

(** [LinearRegression::predict(arma::rowvec& predictions,
    const arma::mat& points)]: the object after the call and the contents of
    [predictions]. *)
Definition predict (self : LinearRegression F) (predictions points : mat F)
    : outcome (LinearRegression F * mat F) :=
  let ncols := to_size_t (n_cols points) in
  let nrows := to_size_t (n_rows points) in
  if bool_decide (nrows = to_uword (n_rows (parameters self) - 1)) then
    let predictions := rowvec_zeros predictions (to_uword ncols) in
    p0 ← elem (parameters self) 0;
    let predictions := plus_scalar predictions p0 in
    predictions ← for_loop 1 (to_size_t (nrows + 1)) (λ i predictions,
      for_loop 0 ncols (λ j predictions,
        a ← elem (parameters self) i;
        x ← elem2 points (i - 1) j;
        old ← elem predictions j;
        set_elem predictions j (fadd old (fmul a x))) predictions)
      predictions;
    mret (self, predictions)
  else Aborted.

(** The value [predict] holds in [predictions(j)] when its outer loop reaches
    coefficient [i]: the intercept added to zero, then one product per
    coefficient [1 .. i - 1], added in that order. *)
Definition running_total (P points : mat F) (j i : Z) : F :=
  foldl (λ acc k, fadd acc (fmul (get P k 0) (get points (k - 1) j)))
        (fadd fzero (get P 0 0)) (seqZ 1 (i - 1)).

(** [s] is a row vector of [c] elements, the [j]-th being [g j]. *)
Definition row_of (c : Z) (g : Z → F) (s : mat F) : Prop :=
  n_rows s = 1 ∧ n_cols s = c ∧ Z.of_nat (length (mem s)) = c ∧
  ∀ j, 0 ≤ j < c → elem s j = Returned (g j).

(** [LinearRegression::getParameters()]: a copy of the vector. *)
Definition getParameters (self : LinearRegression F)
    : LinearRegression F * mat F :=
  (self, parameters self).

(** [LinearRegression::load(filename)]. *)
Definition load {fs} {St : Storage F fs} (self : LinearRegression F)
    (filename : string) (st : fs) : bool * LinearRegression F * fs :=
  let r := data_Load filename (parameters self) st in
  (r.1, Build_LinearRegression r.2, st).

(** [LinearRegression::save(filename)]. *)
Definition save {fs} {St : Storage F fs} (self : LinearRegression F)
    (filename : string) (st : fs) : bool * LinearRegression F * fs :=
  let r := data_Save filename (parameters self) st in
  (r.1, self, r.2).

End Methods.

(** ** Fitting and predicting together *)

(** The sum over [N] observations of the squared differences between the
    responses [y] and the predicted values [yhat]. *)
Definition squared_error {F} {SF : Scalar F} {OR : OrderedRing F} (N : Z)
    (y yhat : Z → F) : F :=
  fsum 0 N (λ j, fmul (fsub (y j) (yhat j)) (fsub (y j) (yhat j))).

(** What Armadillo promises about the values the fitting constructor gets
    back on the predictors [X] and the responses: [arma::qr] stores factors
    [Q], [R] of the design matrix with [trans(Q) * Q] the identity,
    [trans(Q) * responses] is [b], and [arma::solve] stores a column vector
    [p] with one entry per column of [R] that solves [R * p = b] in the
    least-squares sense ([trans(R) * R * p = trans(R) * b]) when [R] has full
    column rank. *)
Definition lapack_contract {F} {SF : Scalar F} {L : Lapack F}
    (responses X Q R b p : mat F) : Prop :=
  qr (design X) = Returned (Q, R) ∧
  mat_mul Q R = Returned (design X) ∧
  mat_mul (trans Q) Q = Returned (identity (n_cols Q)) ∧
  mat_mul (trans Q) responses = Returned b ∧
  solve (colvec_zeros empty_mat (n_cols X)) R b = Returned p ∧
  mat_wf p ∧ n_rows p = n_cols R ∧ n_cols p = 1 ∧
  (full_col_rank R →
     ∃ Rp g, mat_mul R p = Returned Rp ∧
             mat_mul (trans R) Rp = Returned g ∧
             mat_mul (trans R) b = Returned g).

(** ** A store of flat numeric sequences *)

(** Modelled from the spec: mlpack's [data::Load] and [data::Save] and
    Armadillo's [Mat::load] are not among the translated sources.  Following
    the spec, a named external store keeps the parameter vector as a flat
    numeric sequence; writing rounds every value to the precision of the
    on-disk format ([quantize]), a destination may be unwritable, a source
    may be missing, and either failure is reported as [false].  A failed
    load leaves the vector without elements. *)
Record store (F : Type) : Type := {
  files : gmap string (list F);
  writable : string → bool;
}.
Arguments files {F} s.
Arguments writable {F} s.

Definition read_file {F} (filename : string) (st : store F) : bool * mat F :=
  match files st !! filename with
  | Some v => (true, Mat (Z.of_nat (length v)) 1 v)
  | None => (false, Mat 0 1 [])
  end.

Definition write_file {F} (quantize : F → F) (filename : string) (m : mat F)
    (st : store F) : bool * store F :=
  if writable st filename
  then (true, {| files := <[filename := quantize <$> mem m]> (files st);
                 writable := writable st |})
  else (false, st).

Definition flat_storage {F} (quantize : F → F) : Storage F (store F) := {|
  data_Load filename m st := read_file filename st;
  data_Save filename m st := write_file quantize filename m st;
  arma_load filename m st := read_file filename st;
|}.

(** ** Concrete instances *)

(** Exact integer arithmetic, used to run the model on concrete inputs. *)
Definition Z_exact_sum : @ExactSum Z Z_scalar :=
  @Build_ExactSum Z Z_scalar Z.add_assoc Z.add_0_l Z.add_0_r.

Definition Z_ordered_ring : @OrderedRing Z Z_scalar :=
  @Build_OrderedRing Z Z_scalar Z.opp Z.sub Z.le Zth
    Z.le_refl Z.le_antisymm Z.le_trans
    (λ x y z Hyz, proj1 (Z.add_le_mono_l y z x) Hyz)
    Z.square_nonneg
    (λ x y Hxy, proj1 (Z.mul_eq_0 x y) Hxy).

(** Exact stand-ins for the numerical routines, on integers.  [qr] returns
    the factorization [X = I * X], whose first factor is orthogonal;
    [solve] handles two unknowns and returns the solution of the normal
    equations by Cramer's rule, which is the least-squares solution whenever
    it is integral. *)
Definition least_squares_2 (out A B : mat Z) : outcome (mat Z) :=
  if bool_decide (n_rows A = n_rows B ∧ n_cols A = 2 ∧ n_cols B = 1) then
    let dot (u v : Z → Z) :=
      fsum (SF := Z_scalar) 0 (n_rows A) (λ i, u i * v i) in
    let a0 i := get (SF := Z_scalar) A i 0 in
    let a1 i := get (SF := Z_scalar) A i 1 in
    let y i := get (SF := Z_scalar) B i 0 in
    let det := dot a0 a0 * dot a1 a1 - dot a0 a1 * dot a0 a1 in
    Returned (Mat 2 1
      [ (dot a0 y * dot a1 a1 - dot a0 a1 * dot a1 y) `div` det;
        (dot a0 a0 * dot a1 y - dot a0 a1 * dot a0 y) `div` det ])
  else Thrown.

Definition exact_lapack : Lapack Z := {|
  qr X := Returned (identity (SF := Z_scalar) (n_rows X), X);
  solve := least_squares_2;
|}.

(** Three observations of one feature, and their responses. *)
Definition sample_predictors : mat Z := Mat 1 3 [-1; 0; 1].
Definition sample_responses : mat Z := Mat 3 1 [0; 5; 4].

(** A fitted model with two features, and two points to predict. *)
Definition sample_model : LinearRegression Z :=
  Build_LinearRegression (Mat 3 1 [1; 2; 3]).
Definition sample_points : mat Z := Mat 2 2 [4; 5; 6; 7].

(** A store holding no file, in which every destination is writable. *)
Definition empty_store : store Z := {| files := ∅; writable := λ _, true |}.

(** The arithmetic of the source's [double]: IEEE 754 binary64 with
    rounding to nearest, ties to even. *)
Definition double_scalar : Scalar float := {|
  fzero := 0%float;
  fone := 1%float;
  fadd := PrimFloat.add;
  fmul := PrimFloat.mul;
|}.

(** [2 ^ 53], from which on binary64 no longer holds every integer. *)
Definition two_53 : float := 9007199254740992%float.

(** A model with two features whose intercept is [2 ^ 53], and one point. *)
Definition double_model : LinearRegression float :=
  Build_LinearRegression (Mat 3 1 [two_53; 1%float; (-1)%float]).
Definition double_point : mat float := Mat 2 1 [1%float; two_53].

(** The same model and point in exact integer arithmetic. *)
Definition integer_model : LinearRegression Z :=
  Build_LinearRegression (Mat 3 1 [9007199254740992; 1; -1]).
Definition integer_point : mat Z := Mat 2 1 [1; 9007199254740992].

(** [arma::solve(out, A, B)] when it finds no solution: as Armadillo
    documents, it resets [out] (a column vector, so [0 x 1]) and returns
    [false] without throwing.  The constructor drops the flag, so what it
    sees is the emptied vector.  Here that is the case of a singular system;
    otherwise the solution is the one of [least_squares_2]. *)
Definition solve_or_reset (out A B : mat Z) : outcome (mat Z) :=
  let dot (u v : Z → Z) :=
    fsum (SF := Z_scalar) 0 (n_rows A) (λ i, u i * v i) in
  let a0 i := get (SF := Z_scalar) A i 0 in
  let a1 i := get (SF := Z_scalar) A i 1 in
  if bool_decide (dot a0 a0 * dot a1 a1 - dot a0 a1 * dot a0 a1 = 0)
  then Returned (Mat 0 1 [])
  else least_squares_2 out A B.

Definition resetting_lapack : Lapack Z := {|
  qr X := Returned (identity (SF := Z_scalar) (n_rows X), X);
  solve := solve_or_reset;
|}.

(** Three observations of one feature that is zero throughout: the design
    matrix has a column of zeros and the system is singular. *)
Definition constant_predictors : mat Z := Mat 1 3 [0; 0; 0].

(** A store holding the sample model under one name, in which only that
    name is writable. *)
Definition sample_store : store Z := {|
  files := {[ "model.csv" := [1; 2; 3] ]};
  writable := λ name, bool_decide (name = "model.csv");
|}.

(** * Properties *)

(** ** Machine words *)

Lemma to_uword_small {T : Target} (z : Z) :
  0 ≤ z < 2 ^ uword_bits → to_uword z = z.
Proof. intros Hz. unfold to_uword. by apply Z.mod_small. Qed.

Lemma to_size_t_small {T : Target} (z : Z) :
  0 ≤ z < 2 ^ size_t_bits → to_size_t z = z.
Proof. intros Hz. unfold to_size_t. by apply Z.mod_small. Qed.

Lemma uword_le_size_t (T : Target) :
  target_ok T → 2 ^ uword_bits ≤ 2 ^ size_t_bits.
Proof. intros [Hpos Hle]. apply Z.pow_le_mono_r; lia. Qed.

Lemma uword_range_pos (T : Target) : target_ok T → 2 ≤ 2 ^ uword_bits.
Proof.
  intros [Hpos Hle].
  change 2 with (2 ^ 1) at 1. apply Z.pow_le_mono_r; lia.
Qed.

(** ** Column-major storage *)

Section MatrixFacts.
Context {F : Type} {SF : Scalar F}.

Lemma offset_split (r i j : Z) :
  0 ≤ i < r → (i + j * r) `mod` r = i ∧ (i + j * r) `div` r = j.
Proof.
  intros Hi. split.
  - rewrite Z.mod_add by lia. apply Z.mod_small; lia.
  - rewrite Z.div_add by lia. rewrite Z.div_small; lia.
Qed.

Lemma offset_bound (r c i j : Z) :
  0 ≤ i < r → 0 ≤ j < c → 0 ≤ i + j * r < r * c.
Proof. intros Hi Hj. nia. Qed.

Lemma generate_wf (r c : Z) (f : Z → Z → F) :
  0 ≤ r → 0 ≤ c → mat_wf (generate r c f).
Proof.
  intros Hr Hc. unfold mat_wf, n_elem; simpl.
  rewrite length_fmap, length_seqZ. nia.
Qed.

Lemma lookup_generate (r c : Z) (f : Z → Z → F) (i j : Z) :
  0 ≤ i < r → 0 ≤ j < c →
  mem (generate r c f) !! Z.to_nat (i + j * r) = Some (f i j).
Proof.
  intros Hi Hj. pose proof (offset_bound r c i j Hi Hj) as Hb.
  unfold generate; simpl. rewrite list_lookup_fmap.
  rewrite lookup_seqZ_lt by lia. cbn [fmap option_fmap option_map].
  rewrite Z.add_0_l, Z2Nat.id by lia.
  destruct (offset_split r i j Hi) as [-> ->]. done.
Qed.

Lemma get_generate (r c : Z) (f : Z → Z → F) (i j : Z) :
  0 ≤ i < r → 0 ≤ j < c → get (generate r c f) i j = f i j.
Proof.
  intros Hi Hj. unfold get.
  change (n_rows (generate r c f)) with r.
  by rewrite lookup_generate.
Qed.

Lemma lookup_in_range (M : mat F) (i j : Z) :
  mat_wf M → 0 ≤ i < n_rows M → 0 ≤ j < n_cols M →
  mem M !! Z.to_nat (i + j * n_rows M) = Some (get M i j).
Proof.
  intros (Hr & Hc & Hlen) Hi Hj.
  pose proof (offset_bound _ _ i j Hi Hj) as Hb.
  unfold get, n_elem in *.
  destruct (mem M !! Z.to_nat (i + j * n_rows M)) as [x|] eqn:Hx; [done|].
  apply lookup_ge_None in Hx. lia.
Qed.

(** Two well-formed matrices of the same shape with the same elements are
    the same matrix. *)
Lemma mat_ext (A B : mat F) :
  mat_wf A → mat_wf B →
  n_rows A = n_rows B → n_cols A = n_cols B →
  (∀ i j, 0 ≤ i < n_rows A → 0 ≤ j < n_cols A → get A i j = get B i j) →
  A = B.
Proof.
  intros HA HB Hr Hc Hget.
  assert (mem A = mem B) as Hmem.
  { apply list_eq. intros k.
    destruct HA as (HrA & HcA & HlA), HB as (HrB & HcB & HlB).
    unfold n_elem in *.
    destruct (decide (Z.of_nat k < n_rows A * n_cols A)) as [Hk|Hk].
    - assert (0 < n_rows A) as Hpos by nia.
      set (i := Z.of_nat k `mod` n_rows A).
      set (j := Z.of_nat k `div` n_rows A).
      assert (0 ≤ i < n_rows A) as Hi by (apply Z.mod_pos_bound; lia).
      assert (Z.of_nat k = i + j * n_rows A) as Hk'.
      { unfold i, j. pose proof (Z.div_mod (Z.of_nat k) (n_rows A)). lia. }
      assert (0 ≤ j < n_cols A) as Hj.
      { split; [apply Z.div_pos; lia|].
        apply Z.div_lt_upper_bound; lia. }
      replace k with (Z.to_nat (i + j * n_rows A)) by lia.
      rewrite lookup_in_range by (done || unfold mat_wf, n_elem; lia).
      rewrite Hr.
      rewrite lookup_in_range by (unfold mat_wf, n_elem; lia).
      f_equal. by apply Hget.
    - rewrite (proj2 (lookup_ge_None _ _)) by lia.
      rewrite (proj2 (lookup_ge_None _ _)) by lia. done. }
  destruct A, B; simpl in *; congruence.
Qed.

End MatrixFacts.

(** ** Inserting and shedding a row *)

Section RowSurgery.
Context {F : Type} {SF : Scalar F}.

Lemma get_rowvec_ones (v : mat F) (n j : Z) :
  0 ≤ j < n → get (rowvec_ones v n) 0 j = fone.
Proof.
  intros Hj. unfold get; simpl.
  rewrite (lookup_replicate_2 (Z.to_nat n) fone) by lia. done.
Qed.

(** Shedding the row that was just inserted gives the matrix back. *)
Lemma shed_row_insert_rows (X C X1 : mat F) (k : Z) :
  mat_wf X → n_rows C = 1 →
  insert_rows X k C = Returned X1 → shed_row X1 k = Returned X.
Proof.
  intros HX HC Hins. unfold insert_rows in Hins.
  case_bool_decide as Hchk; [|done].
  destruct Hchk as [Hk Hcols]. injection Hins as <-.
  pose proof HX as (Hr & Hc & _).
  unfold shed_row. cbn [n_rows n_cols generate].
  rewrite bool_decide_eq_true_2 by lia. f_equal.
  apply mat_ext; [apply generate_wf; lia|done|simpl; lia|done|].
  cbn [n_rows n_cols generate]. intros i j Hi Hj.
  rewrite get_generate by lia.
  case_bool_decide.
  - rewrite get_generate by lia. by rewrite bool_decide_eq_true_2 by lia.
  - rewrite get_generate by lia.
    rewrite !bool_decide_eq_false_2 by lia. f_equal; lia.
Qed.

Lemma insert_rows_ones (X v : mat F) :
  mat_wf X →
  insert_rows X 0 (rowvec_ones v (n_cols X)) = Returned (with_intercept_row X).
Proof.
  intros (Hr & Hc & Hlen). unfold insert_rows.
  rewrite bool_decide_eq_true_2 by (simpl; lia). f_equal.
  cbn [n_rows rowvec_ones].
  apply mat_ext; try (apply generate_wf; lia); try done.
  cbn [n_rows n_cols generate]. intros i j Hi Hj.
  unfold with_intercept_row. rewrite !get_generate by lia.
  rewrite bool_decide_eq_false_2 by lia.
  case_bool_decide as Hi0.
  - rewrite bool_decide_eq_true_2 by lia.
    replace (i - 0) with 0 by lia. by apply get_rowvec_ones.
  - rewrite bool_decide_eq_false_2 by lia. done.
Qed.

Lemma shed_row_with_intercept_row (X : mat F) :
  mat_wf X → shed_row (with_intercept_row X) 0 = Returned X.
Proof.
  intros HX.
  apply (shed_row_insert_rows X (rowvec_ones empty_mat (n_cols X))); try done.
  by apply insert_rows_ones.
Qed.

End RowSurgery.

(** ** The fitting constructor, step by step *)

Section Fit.
Context {F : Type} {SF : Scalar F} {L : Lapack F} (T : Target).

(** The constructor returns exactly when the numerical calls return, and then
    the caller's matrix is back in its initial state; when one of them throws,
    the caller's matrix is left with the extra row. *)
Lemma fit_run (responses X : mat F) :
  target_ok T → mat_wf X → mat_fits (with_intercept_row X) →
  LinearRegression_fit responses X =
    match coefficients responses X with
    | Returned p => (Returned (Build_LinearRegression p), X)
    | Thrown => (Thrown, with_intercept_row X)
    | Aborted => (Aborted, with_intercept_row X)
    end.
Proof.
  intros HT HX [_ Hfit]. pose proof HX as (Hr & Hc & _).
  cbn [with_intercept_row generate n_cols] in Hfit.
  pose proof (uword_le_size_t T HT) as Hle.
  unfold LinearRegression_fit, coefficients, design.
  unfold mbind, stateful_bind, outcome_bind, read, update, lift, mret,
    stateful_ret.
  rewrite to_size_t_small, to_uword_small by lia.
  rewrite insert_rows_ones by done.
  destruct (qr (trans (with_intercept_row X))) as [[Q R]| |]; [|done..].
  cbn [fst snd].
  destruct (mat_mul (trans Q) responses) as [b| |]; [|done..].
  destruct (solve _ R b) as [p| |]; [|done..].
  by rewrite shed_row_with_intercept_row.
Qed.

(** The constructor returns as soon as the numerical calls do. *)
Lemma fit_returns (responses X p : mat F) :
  target_ok T → mat_wf X → mat_fits (with_intercept_row X) →
  coefficients responses X = Returned p →
  LinearRegression_fit responses X = (Returned (Build_LinearRegression p), X).
Proof.
  intros HT HX Hfits Hp. by rewrite (fit_run responses X HT HX Hfits), Hp.
Qed.

End Fit.

(** ** Loops *)

Section Loops.
Context {State : Type}.

(** An invariant that every iteration re-establishes holds when the loop is
    left, and the loop returns. *)
Lemma for_each_invariant (I : Z → State → Prop)
    (body : Z → State → outcome State)
    (n : nat) (lo : Z) (s : State) :
  I lo s →
  (∀ k t, lo ≤ k < lo + Z.of_nat n → I k t →
     ∃ t', body k t = Returned t' ∧ I (k + 1) t') →
  ∃ s', for_each body (seqZ lo (Z.of_nat n)) s = Returned s' ∧
        I (lo + Z.of_nat n) s'.
Proof.
  revert lo s. induction n as [|n IH]; intros lo s Hs Hstep.
  - exists s. rewrite seqZ_nil by lia. split; [done|].
    by replace (lo + Z.of_nat 0) with lo by lia.
  - rewrite seqZ_cons by lia. cbn [for_each].
    destruct (Hstep lo s) as (t & Ht & HI); [lia|done|].
    rewrite Ht. cbn.
    replace (Z.pred (Z.of_nat (S n))) with (Z.of_nat n) by lia.
    destruct (IH (Z.succ lo) t) as (s' & Hs' & HI').
    + by replace (Z.succ lo) with (lo + 1) by lia.
    + intros k u Hk Hu. apply Hstep; [lia|done].
    + exists s'. split; [done|].
      by replace (lo + Z.of_nat (S n)) with (Z.succ lo + Z.of_nat n)
        by lia.
Qed.

Lemma for_loop_invariant (I : Z → State → Prop)
    (body : Z → State → outcome State)
    (lo hi : Z) (s : State) :
  lo ≤ hi → I lo s →
  (∀ k t, lo ≤ k < hi → I k t → ∃ t', body k t = Returned t' ∧ I (k + 1) t') →
  ∃ s', for_loop lo hi body s = Returned s' ∧ I hi s'.
Proof.
  intros Hle Hs Hstep. unfold for_loop.
  destruct (for_each_invariant I body (Z.to_nat (hi - lo)) lo s)
    as (s' & Hs' & HI).
  - done.
  - intros k t Hk. apply Hstep. lia.
  - exists s'. rewrite Z2Nat.id in Hs', HI by lia.
    replace (lo + (hi - lo)) with hi in HI by lia. done.
Qed.

(** A property that every returning iteration preserves holds of whatever
    the loop returns. *)
Lemma for_each_preserves (J : State → Prop)
    (body : Z → State → outcome State)
    (idx : list Z) (s s' : State) :
  J s → (∀ k t t', body k t = Returned t' → J t → J t') →
  for_each body idx s = Returned s' → J s'.
Proof.
  intros Hs Hstep. revert s Hs.
  induction idx as [|i idx IH]; intros s Hs Hrun; cbn in Hrun.
  - by injection Hrun as <-.
  - destruct (body i s) as [t| |] eqn:Ht; [|done..].
    apply (IH t); [|done]. by eapply Hstep.
Qed.

End Loops.

(** ** Checked element access *)

Section Access.
Context {F : Type} {SF : Scalar F}.

Lemma elem2_in_range (M : mat F) (i j : Z) :
  mat_wf M → 0 ≤ i < n_rows M → 0 ≤ j < n_cols M →
  elem2 M i j = Returned (get M i j).
Proof.
  intros HM Hi Hj. unfold elem2.
  rewrite bool_decide_eq_true_2 by done.
  by rewrite lookup_in_range.
Qed.

Lemma elem_colvec (P : mat F) (i : Z) :
  mat_wf P → n_cols P = 1 → 0 ≤ i < n_rows P →
  elem P i = Returned (get P i 0).
Proof.
  intros HP Hc Hi. unfold elem, n_elem.
  rewrite bool_decide_eq_true_2 by lia.
  replace i with (i + 0 * n_rows P) at 1 by lia.
  rewrite lookup_in_range by (done || lia). done.
Qed.

Lemma elem_empty (P : mat F) (i : Z) : n_rows P = 0 → elem P i = Thrown.
Proof.
  intros Hr. unfold elem, n_elem. rewrite Hr.
  by rewrite bool_decide_eq_false_2 by lia.
Qed.

Lemma elem_lookup (s : mat F) (j : Z) (x : F) :
  0 ≤ j < n_elem s → mem s !! Z.to_nat j = Some x → elem s j = Returned x.
Proof.
  intros Hj Hx. unfold elem.
  rewrite bool_decide_eq_true_2 by done. by rewrite Hx.
Qed.

(** A checked store changes the element it names and nothing else. *)
Lemma elem_set_elem (s s' : mat F) (j k : Z) (v : F) :
  Z.of_nat (length (mem s)) = n_elem s → 0 ≤ k →
  set_elem s j v = Returned s' →
  elem s' k = if decide (k = j) then Returned v else elem s k.
Proof.
  intros Hlen Hk. unfold set_elem.
  case_bool_decide as Hj; [|done]. intros [= <-].
  unfold elem, n_elem in *. cbn [n_rows n_cols mem].
  case_bool_decide as Hkr.
  - case_decide as Hkj.
    + subst k. rewrite list_lookup_insert_eq by lia. done.
    + rewrite list_lookup_insert_ne by lia. done.
  - case_decide; [lia|done].
Qed.

Lemma set_elem_shape (s s' : mat F) (j : Z) (v : F) :
  set_elem s j v = Returned s' →
  n_rows s' = n_rows s ∧ n_cols s' = n_cols s ∧
  length (mem s') = length (mem s).
Proof.
  unfold set_elem. case_bool_decide; [|done]. intros [= <-].
  cbn. by rewrite length_insert.
Qed.

End Access.

(** ** [predict], loop by loop *)

Section Predict.
Context {F : Type} {SF : Scalar F} (T : Target).

Lemma row_of_ext (c : Z) (g g' : Z → F) (s : mat F) :
  (∀ j, 0 ≤ j < c → g j = g' j) → row_of c g s → row_of c g' s.
Proof.
  intros Hg (Hr & Hc & Hlen & Hel). repeat split; try done.
  intros j Hj. rewrite <- Hg by done. by apply Hel.
Qed.

Lemma running_total_step (P points : mat F) (j i : Z) :
  1 ≤ i →
  running_total P points j (i + 1) =
  fadd (running_total P points j i) (fmul (get P i 0) (get points (i - 1) j)).
Proof.
  intros Hi. unfold running_total.
  replace (i + 1 - 1) with ((i - 1) + 1) by lia.
  rewrite seqZ_app by lia. rewrite foldl_app.
  replace (1 + (i - 1)) with i by lia. done.
Qed.

(** The vector [predict] starts from: [n] copies of [0 + parameters(0)]. *)
Lemma initial_row (v : mat F) (n : Z) (p0 : F) :
  0 ≤ n → row_of n (λ _, fadd fzero p0) (plus_scalar (rowvec_zeros v n) p0).
Proof.
  intros Hn. unfold row_of, plus_scalar, rowvec_zeros. cbn [n_rows n_cols mem].
  rewrite length_fmap, length_replicate.
  repeat split; try lia.
  intros j Hj. apply elem_lookup; [unfold n_elem; cbn; lia|].
  cbn [mem]. rewrite list_lookup_fmap.
  rewrite (lookup_replicate_2 (Z.to_nat n) fzero) by lia. done.
Qed.

(** One pass of the inner loop adds [parameters(i) * points(i - 1, j)] to
    every [predictions(j)]. *)
Lemma inner_loop (P points s : mat F) (i : Z) (g : Z → F) :
  mat_wf P → n_cols P = 1 → 1 ≤ i < n_rows P →
  mat_wf points → i - 1 < n_rows points →
  row_of (n_cols points) g s →
  ∃ s',
    for_loop 0 (n_cols points) (λ j predictions,
      a ← elem P i;
      x ← elem2 points (i - 1) j;
      old ← elem predictions j;
      set_elem predictions j (fadd old (fmul a x))) s = Returned s' ∧
    row_of (n_cols points)
      (λ j, fadd (g j) (fmul (get P i 0) (get points (i - 1) j))) s'.
Proof.
  intros HP HPc Hi Hpts Hrow Hs.
  pose proof Hpts as (_ & Hc & _).
  set (g' := λ j, fadd (g j) (fmul (get P i 0) (get points (i - 1) j))).
  destruct (for_loop_invariant
    (λ k t, row_of (n_cols points)
              (λ j, if decide (j < k) then g' j else g j) t)
    (λ j predictions,
      a ← elem P i;
      x ← elem2 points (i - 1) j;
      old ← elem predictions j;
      set_elem predictions j (fadd old (fmul a x)))
    0 (n_cols points) s) as (s' & Hrun & Hs'); [done| | |].
  - eapply row_of_ext; [|exact Hs]. intros j Hj. by rewrite decide_False by lia.
  - intros k t Hk (Hr & Hcs & Hlen & Hel).
    rewrite (elem_colvec P i) by (done || lia). cbn.
    rewrite elem2_in_range by (done || lia). cbn.
    rewrite Hel by done. rewrite decide_False by lia. cbn.
    destruct (set_elem t k
                (fadd (g k) (fmul (get P i 0) (get points (i - 1) k))))
      as [t'| |] eqn:Hset.
    2,3: unfold set_elem, n_elem in Hset;
         rewrite bool_decide_eq_true_2 in Hset by lia; done.
    exists t'. split; [done|].
    destruct (set_elem_shape _ _ _ _ Hset) as (Hr' & Hc' & Hl').
    repeat split; try congruence.
    intros j Hj.
    rewrite (elem_set_elem t t' k j _) by (done || unfold n_elem; lia).
    case_decide as Hjk.
    + subst j. by rewrite decide_True by lia.
    + rewrite Hel by done. f_equal.
      repeat case_decide; done || lia.
  - exists s'. split; [done|].
    eapply row_of_ext; [|exact Hs']. intros j Hj. cbn beta.
    case_decide; [done|lia].
Qed.

(** The two nested loops of [predict]. *)
Lemma outer_loop (P points s : mat F) :
  mat_wf P → n_cols P = 1 → 1 ≤ n_rows P →
  mat_wf points → n_rows points = n_rows P - 1 →
  row_of (n_cols points) (λ j, running_total P points j 1) s →
  ∃ s',
    for_loop 1 (n_rows points + 1) (λ i predictions,
      for_loop 0 (n_cols points) (λ j predictions,
        a ← elem P i;
        x ← elem2 points (i - 1) j;
        old ← elem predictions j;
        set_elem predictions j (fadd old (fmul a x))) predictions) s
      = Returned s' ∧
    row_of (n_cols points) (λ j, running_total P points j (n_rows P)) s'.
Proof.
  intros HP HPc HPr Hpts Hrows Hs.
  destruct (for_loop_invariant
    (λ i t, row_of (n_cols points) (λ j, running_total P points j i) t)
    (λ i predictions,
      for_loop 0 (n_cols points) (λ j predictions,
        a ← elem P i;
        x ← elem2 points (i - 1) j;
        old ← elem predictions j;
        set_elem predictions j (fadd old (fmul a x))) predictions)
    1 (n_rows points + 1) s) as (s' & Hrun & Hs'); [lia|done| |].
  - intros i t Hi Ht.
    destruct (inner_loop P points t i _ HP HPc ltac:(lia) Hpts ltac:(lia) Ht)
      as (t' & Hrun & Ht').
    exists t'. split; [done|].
    eapply row_of_ext; [|exact Ht']. intros j Hj. cbn.
    by rewrite running_total_step by lia.
  - exists s'. split; [done|].
    by replace (n_rows P) with (n_rows points + 1) by lia.
Qed.

(** [predict] on a non-empty coefficient vector and points of the matching
    dimension: it returns, leaves the object as it was, and [predictions]
    holds one running total per point. *)
Lemma predict_run (self : LinearRegression F) (predictions points : mat F) :
  target_ok T →
  mat_wf (parameters self) → mat_fits (parameters self) →
  n_cols (parameters self) = 1 → 1 ≤ n_rows (parameters self) →
  mat_wf points → mat_fits points →
  n_rows points = n_rows (parameters self) - 1 →
  ∃ out,
    predict self predictions points = Returned (self, out) ∧
    row_of (n_cols points)
      (λ j, running_total (parameters self) points j (n_rows (parameters self)))
      out.
Proof.
  intros HT HP [HPf _] HPc HPr Hpts [Hf1 Hf2] Hrows.
  pose proof (uword_le_size_t T HT) as Hle.
  pose proof Hpts as (Hr & Hc & _).
  unfold predict.
  rewrite !to_size_t_small by lia.
  rewrite !to_uword_small by lia.
  rewrite bool_decide_eq_true_2 by done.
  rewrite elem_colvec by (done || lia). cbn.
  destruct (outer_loop (parameters self) points
    (plus_scalar (rowvec_zeros predictions (n_cols points))
       (get (parameters self) 0 0)) HP HPc HPr Hpts Hrows)
    as (out & Hrun & Hout).
  { eapply row_of_ext; [|by apply initial_row]. done. }
  rewrite Hrun. cbn. eauto.
Qed.

End Predict.

(** ** What [predict] computes *)

Section PredictClaims.
Context {F : Type} {SF : Scalar F} (T : Target).

(** Adding the terms one after the other onto [a], as the loop does, is [a]
    plus their sum when addition is exact. *)
Lemma foldl_fadd_fsum {ES : ExactSum F} (h : Z → F) (a : F) (lo n : Z) :
  foldl (λ acc k, fadd acc (h k)) a (seqZ lo n) = fadd a (fsum lo n h).
Proof.
  unfold fsum. generalize (seqZ lo n) as l. intros l. revert a.
  induction l as [|k l IH]; intros a; cbn.
  - by rewrite fadd_0_r.
  - rewrite IH. by rewrite fadd_assoc.
Qed.

Lemma running_total_exact {ES : ExactSum F} (P points : mat F) (j i : Z) :
  running_total P points j i =
  fadd (get P 0 0)
       (fsum 1 (i - 1) (λ k, fmul (get P k 0) (get points (k - 1) j))).
Proof.
  unfold running_total.
  rewrite (foldl_fadd_fsum (λ k, fmul (get P k 0) (get points (k - 1) j))).
  by rewrite fadd_0_l.
Qed.

(** C2.  With a parameter vector of length [D + 1] and a points matrix of [M]
    observations with [D] features each, [predict] returns a vector of exactly
    [M] values, the [j]-th belonging to observation [j].  The [j]-th value is
    what the loop accumulates in the arithmetic of the element type: starting
    from [0 + parameters(0)], it adds [parameters(k)] times feature [k] of
    observation [j] (stored at [points(k - 1, j)]) for [k = 1 .. D] in that
    order.  It is [parameters(0)] plus the sum of these products whenever
    addition is exact, which the rounding addition of [double] is not. *)
Theorem predict_affine (self : LinearRegression F)
    (predictions points : mat F) (D M : Z) :
  target_ok T →
  mat_wf (parameters self) → mat_fits (parameters self) →
  n_rows (parameters self) = D + 1 → n_cols (parameters self) = 1 →
  mat_wf points → mat_fits points →
  n_rows points = D → n_cols points = M →
  ∃ out,
    predict self predictions points = Returned (self, out) ∧
    n_rows out = 1 ∧ n_cols out = M ∧ Z.of_nat (length (mem out)) = M ∧
    ∀ j, 0 ≤ j < M →
      elem out j =
      Returned
        (foldl (λ acc k, fadd acc (fmul (get (parameters self) k 0)
                                        (get points (k - 1) j)))
               (fadd fzero (get (parameters self) 0 0)) (seqZ 1 D)) ∧
      (ExactSum F →
       elem out j =
       Returned (fadd (get (parameters self) 0 0)
                   (fsum 1 D (λ k, fmul (get (parameters self) k 0)
                                        (get points (k - 1) j))))).
Proof.
  intros HT HP HPf HPr HPc Hpts Hptsf HD HM.
  pose proof Hpts as (Hr & _).
  destruct (predict_run T self predictions points) as (out & Hrun & Hout);
    try done; try lia.
  destruct Hout as (Hor & Hoc & Hol & Hel).
  exists out. repeat split; try congruence.
  - rewrite Hel by lia. unfold running_total.
    by replace (n_rows (parameters self) - 1) with D by lia.
  - intros ES. rewrite Hel by lia.
    rewrite running_total_exact. do 3 f_equal. lia.
Qed.

(** [predict] never assigns to [parameters]. *)
Lemma predict_keeps_object (self self' : LinearRegression F)
    (predictions points out : mat F) :
  predict self predictions points = Returned (self', out) → self' = self.
Proof.
  unfold predict. case_bool_decide; [|done].
  destruct (elem (parameters self) 0) as [p0| |]; [|done..]. cbn.
  destruct (for_loop _ _ _ _) as [s| |]; [|done..]. cbn.
  by intros [= <- _].
Qed.

(** C8.  [predict] is deterministic: calling it a second time on the object
    and the vector the first call left behind, with the same points, gives
    what the first call gave. *)
Theorem predict_twice (self : LinearRegression F) (predictions points : mat F) :
  (r ← predict self predictions points; predict r.1 r.2 points) =
  predict self predictions points.
Proof.
  destruct (predict self predictions points) as [[self' out]| |] eqn:Hfirst;
    [|done..].
  pose proof (predict_keeps_object _ _ _ _ _ Hfirst) as ->.
  cbn. rewrite <- Hfirst. unfold predict, rowvec_zeros. done.
Qed.

(** The shape of the vector is fixed by [zeros]; the stores keep it. *)
Lemma predict_shape (self self' : LinearRegression F)
    (predictions points out : mat F) :
  target_ok T → mat_wf points → mat_fits points →
  predict self predictions points = Returned (self', out) →
  n_rows out = 1 ∧ n_cols out = n_cols points ∧
  Z.of_nat (length (mem out)) = n_cols points.
Proof.
  intros HT (Hr & Hc & _) [Hf1 Hf2].
  pose proof (uword_le_size_t T HT) as Hle.
  unfold predict. case_bool_decide; [|done].
  rewrite (to_size_t_small (n_cols points)) by lia.
  rewrite to_uword_small by lia.
  destruct (elem (parameters self) 0) as [p0| |]; [|done..]. cbn.
  destruct (for_loop _ _ _ _) as [s| |] eqn:Hloop; [|done..]. cbn.
  intros [= _ <-].
  set (J := λ t : mat F, n_rows t = 1 ∧ n_cols t = n_cols points ∧
                         Z.of_nat (length (mem t)) = n_cols points).
  assert (∀ i idx t t',
    J t →
    for_each (λ j predictions,
      a ← elem (parameters self) i;
      x ← elem2 points (i - 1) j;
      old ← elem predictions j;
      set_elem predictions j (fadd old (fmul a x))) idx t = Returned t' →
    J t') as Hinner.
  { intros i idx t t' Ht. apply for_each_preserves; [done|].
    intros k u u' Hbody Hu.
    destruct (elem (parameters self) i) as [a| |]; [|done..]. cbn in Hbody.
    destruct (elem2 points (i - 1) k) as [x| |]; [|done..]. cbn in Hbody.
    destruct (elem u k) as [old| |]; [|done..]. cbn in Hbody.
    destruct (set_elem_shape _ _ _ _ Hbody) as (? & ? & ?).
    unfold J in *. intuition congruence. }
  unfold for_loop in Hloop.
  apply (for_each_preserves J) in Hloop; [done| |].
  - unfold J, plus_scalar, rowvec_zeros. cbn.
    rewrite length_fmap, length_replicate. lia.
  - intros i t t' Hbody Ht. by eapply Hinner.
Qed.

(** C10.  [predict] resizes the caller's vector to the number of points and
    overwrites it.  The outcome of every call is the same whatever the vector
    held before, and a returned vector has one element per point.  When the
    points have as many features as the parameter vector has coefficients,
    the call returns, and element [j] of the vector is zero plus the
    intercept plus, one after the other, the feature terms of point [j]:
    nothing of the old length or contents is left. *)
Theorem predict_overwrites (self : LinearRegression F) (points : mat F) :
  target_ok T → mat_wf points → mat_fits points →
  (∀ before before' : mat F,
     predict self before points = predict self before' points) ∧
  (∀ before self' out,
     predict self before points = Returned (self', out) →
     n_rows out = 1 ∧ n_cols out = n_cols points ∧
     Z.of_nat (length (mem out)) = n_cols points) ∧
  (mat_wf (parameters self) → mat_fits (parameters self) →
   n_cols (parameters self) = 1 → 1 ≤ n_rows (parameters self) →
   n_rows points = n_rows (parameters self) - 1 →
   ∀ before, ∃ out,
     predict self before points = Returned (self, out) ∧
     n_rows out = 1 ∧ n_cols out = n_cols points ∧
     Z.of_nat (length (mem out)) = n_cols points ∧
     ∀ j, 0 ≤ j < n_cols points →
       elem out j =
       Returned
         (foldl (λ acc k, fadd acc (fmul (get (parameters self) k 0)
                                         (get points (k - 1) j)))
                (fadd fzero (get (parameters self) 0 0))
                (seqZ 1 (n_rows points)))).
Proof.
  intros HT Hpts Hfits. split; [|split].
  - intros before before'. unfold predict, rowvec_zeros. done.
  - intros before self' out Hrun. by eapply predict_shape.
  - intros HP HPf HPc HPr Hrows before.
    destruct (predict_run T self before points) as (out & Hrun & Hout);
      try done.
    destruct Hout as (Hor & Hoc & Hol & Hel).
    exists out. repeat split; try done.
    intros j Hj. rewrite Hel by done. unfold running_total.
    by rewrite Hrows.
Qed.

(** For a non-empty parameter vector the assertion is the only way [predict]
    can fail: it aborts exactly when the number of features differs from the
    length of the vector minus one, and returns otherwise. *)
Theorem predict_aborts_iff (self : LinearRegression F)
    (predictions points : mat F) :
  target_ok T →
  mat_wf (parameters self) → mat_fits (parameters self) →
  n_cols (parameters self) = 1 → 1 ≤ n_rows (parameters self) →
  mat_wf points → mat_fits points →
  (predict self predictions points = Aborted ↔
     n_rows points ≠ n_rows (parameters self) - 1) ∧
  (n_rows points = n_rows (parameters self) - 1 →
     ∃ out, predict self predictions points = Returned (self, out)) ∧
  predict self predictions points ≠ Thrown.
Proof.
  intros HT HP HPf HPc HPr Hpts Hptsf.
  destruct (decide (n_rows points = n_rows (parameters self) - 1)) as [Heq|Hne].
  - destruct (predict_run T self predictions points) as (out & Hrun & _);
      try done.
    rewrite Hrun. repeat split; try done; eauto.
  - assert (predict self predictions points = Aborted) as Hab.
    { pose proof (uword_le_size_t T HT) as Hle.
      destruct HPf as [HPf _], Hptsf as [Hptsf _].
      pose proof Hpts as (Hr & _).
      unfold predict.
      rewrite to_size_t_small by lia. rewrite to_uword_small by lia.
      by rewrite bool_decide_eq_false_2 by done. }
    rewrite Hab. repeat split; try done.
Qed.

(** On an empty parameter vector [parameters.n_rows - 1] wraps around: the
    assertion lets exactly the points with [2 ^ w - 1] rows through, [w] the
    width of [uword], and the read of [parameters(0)] then fails. *)
Lemma predict_on_empty_parameters (self : LinearRegression F)
    (predictions points : mat F) :
  target_ok T → n_rows (parameters self) = 0 →
  mat_wf points → mat_fits points →
  predict self predictions points =
    if bool_decide (n_rows points = 2 ^ uword_bits - 1)
    then Thrown else Aborted.
Proof.
  intros HT Hempty (Hr & _) [Hf _].
  pose proof (uword_le_size_t T HT) as Hle.
  pose proof (uword_range_pos T HT) as Hpos.
  unfold predict. rewrite Hempty.
  rewrite (to_size_t_small (n_rows points)) by lia.
  assert (to_uword (0 - 1) = 2 ^ uword_bits - 1) as ->.
  { unfold to_uword. symmetry. apply (Z.mod_unique _ _ (-1)); lia. }
  case_bool_decide; [|done].
  by rewrite elem_empty.
Qed.

End PredictClaims.

(** ** The fitting constructor and the caller's matrix *)

Section FitClaims.
Context {F : Type} {SF : Scalar F} {L : Lapack F} (T : Target).

(** C3.  When the fitting constructor returns, the predictors matrix is what
    it was before the call: the row of ones is inserted (one row more, same
    columns) and shed again.  The constructor does return whenever the
    numerical calls between the two steps return.  The matrix is any
    well-formed one that Armadillo can still index with the extra row. *)
Theorem fit_restores_predictors (responses X : mat F) :
  target_ok T → mat_wf X → mat_fits (with_intercept_row X) →
  (∀ obj X',
     LinearRegression_fit responses X = (Returned obj, X') → X' = X) ∧
  (∀ p, coefficients responses X = Returned p →
     LinearRegression_fit responses X =
       (Returned (Build_LinearRegression p), X)) ∧
  (∃ X1,
     insert_rows X 0 (rowvec_ones empty_mat (n_cols X)) = Returned X1 ∧
     n_rows X1 = n_rows X + 1 ∧ n_cols X1 = n_cols X ∧
     shed_row X1 0 = Returned X).
Proof.
  intros HT HX Hfits.
  pose proof (fit_run T responses X HT HX Hfits) as Hrun.
  split; [|split].
  - intros obj X' Hret. rewrite Hret in Hrun.
    destruct (coefficients responses X); by inversion Hrun.
  - intros p Hp. by rewrite Hrun, Hp.
  - exists (with_intercept_row X).
    rewrite insert_rows_ones by done.
    by rewrite shed_row_with_intercept_row.
Qed.

(** When a numerical call throws, the exception leaves the constructor
    before [shed_row]: the caller's matrix keeps the extra row. *)
Lemma fit_throws_keeps_row (responses X : mat F) :
  target_ok T → mat_wf X → mat_fits (with_intercept_row X) →
  coefficients responses X = Thrown →
  LinearRegression_fit responses X = (Thrown, with_intercept_row X) ∧
  n_rows (with_intercept_row X) = n_rows X + 1.
Proof.
  intros HT HX Hfits Hthrow.
  by rewrite (fit_run T responses X HT HX Hfits), Hthrow.
Qed.

(** The design matrix has one row per observation and one column more than
    there are features: column [0] is constant one, column [k] is feature
    [k - 1]. *)
Lemma design_entries (X : mat F) :
  mat_wf X →
  n_rows (design X) = n_cols X ∧ n_cols (design X) = n_rows X + 1 ∧
  ∀ j, 0 ≤ j < n_cols X →
    get (design X) j 0 = fone ∧
    ∀ k, 1 ≤ k ≤ n_rows X → get (design X) j k = get X (k - 1) j.
Proof.
  intros (Hr & Hc & _). unfold design, trans. cbn [n_rows n_cols generate].
  repeat split; try done.
  - rewrite get_generate by (cbn; lia).
    unfold with_intercept_row. rewrite get_generate by lia.
    by rewrite bool_decide_eq_true_2.
  - intros k Hk. rewrite get_generate by (cbn; lia).
    unfold with_intercept_row. rewrite get_generate by lia.
    by rewrite bool_decide_eq_false_2 by lia.
Qed.

End FitClaims.

(** ** The parameter vector *)

Section ParameterClaims.
Context {F fs : Type} {SF : Scalar F} {L : Lapack F} {St : Storage F fs}
  (T : Target).

(** C5.  The object the fitting constructor returns holds exactly the vector
    [arma::solve] stored for [R] and [trans(Q) * responses], [(Q, R)] being
    what [arma::qr] stored for the design matrix, whose column [0] is the
    constant one and whose column [k] is feature [k - 1].  When [arma::solve]
    stored a solution (a column vector with one entry per column of [R], and
    [R] has the columns of the design matrix) the vector has length [D + 1],
    [predict] on points of [D] features uses its index [0] as the intercept
    and its index [k] as the coefficient of feature [k], and [predict],
    [getParameters] and [save] leave it as it is.  The constructor drops the
    flag of [arma::solve]: a vector of another length, such as the emptied
    one of a failed solve, is kept all the same. *)
Theorem fit_parameter_vector (responses X Q R b p : mat F) (D : Z) :
  target_ok T → mat_wf X → mat_fits (with_intercept_row X) → n_rows X = D →
  qr (design X) = Returned (Q, R) →
  mat_mul (trans Q) responses = Returned b →
  solve (colvec_zeros empty_mat (n_cols X)) R b = Returned p →
  let obj := Build_LinearRegression p in
  LinearRegression_fit responses X = (Returned obj, X) ∧
  (∀ j, 0 ≤ j < n_cols X →
     get (design X) j 0 = fone ∧
     ∀ k, 1 ≤ k ≤ D → get (design X) j k = get X (k - 1) j) ∧
  (n_cols R = n_cols (design X) →
   mat_wf p → n_rows p = n_cols R → n_cols p = 1 →
   n_rows (parameters obj) = D + 1 ∧ n_cols (parameters obj) = 1 ∧
   ∀ predictions points,
     mat_wf points → mat_fits points → n_rows points = D →
     ∃ out,
       predict obj predictions points = Returned (obj, out) ∧
       ∀ j, 0 ≤ j < n_cols points →
         elem out j =
         Returned
           (foldl (λ acc k, fadd acc (fmul (get (parameters obj) k 0)
                                           (get points (k - 1) j)))
                  (fadd fzero (get (parameters obj) 0 0)) (seqZ 1 D))) ∧
  (∀ predictions points obj' out,
     predict obj predictions points = Returned (obj', out) → obj' = obj) ∧
  getParameters obj = (obj, p) ∧
  (∀ filename st, (save obj filename st).1.2 = obj).
Proof.
  intros HT HX Hfits HD HQR Hb Hp obj.
  destruct (design_entries X HX) as (Hdr & Hdc & Hent).
  split; [|split; [|split; [|split; [|split]]]].
  - apply (fit_returns T); try done.
    unfold coefficients. rewrite HQR. cbn. rewrite Hb. cbn. done.
  - intros j Hj. destruct (Hent j Hj) as [Hone Hk]. split; [done|].
    intros k Hk'. apply Hk. lia.
  - intros HR Hpwf Hpr Hpc. cbn [obj parameters].
    split; [lia|]. split; [done|].
    intros predictions points Hpts Hptsf Hrows.
    pose proof (uword_range_pos T HT) as Hpos.
    assert (mat_fits p) as Hpf.
    { destruct Hfits as [Hf _].
      cbn [with_intercept_row generate n_rows] in Hf. split; lia. }
    pose proof HX as (HXr & _).
    destruct (predict_run T obj predictions points) as (out & Hrun & Hout);
      cbn [obj parameters]; try done; try lia.
    destruct Hout as (_ & _ & _ & Hel).
    exists out. split; [done|]. intros j Hj. rewrite Hel by done.
    unfold running_total. cbn [obj parameters].
    by replace (n_rows p - 1) with D by lia.
  - intros predictions points obj' out Hrun. by eapply predict_keeps_object.
  - done.
  - done.
Qed.

(** C9.  The constructor from a file name drops the flag of
    [parameters.load]: when the load fails, leaving some matrix [m] in the
    vector, the object is built all the same around [m], it is the very
    object a successful load of [m] would have built, and only the [load]
    method reports such a failure by returning [false]. *)
Theorem file_constructor_drops_flag (filename : string) (st : fs) (m : mat F) :
  arma_load filename empty_mat st = (false, m) →
  LinearRegression_from_file filename st = Build_LinearRegression m ∧
  (∀ st', arma_load filename empty_mat st' = (true, m) →
     LinearRegression_from_file filename st' =
     LinearRegression_from_file filename st) ∧
  (∀ self m', data_Load filename (parameters self) st = (false, m') →
     (load self filename st).1.1 = false).
Proof.
  intros Hfail. unfold LinearRegression_from_file. rewrite Hfail.
  split; [done|]. split.
  - intros st' Hok. by rewrite Hok.
  - intros self m' Hload. unfold load. by rewrite Hload.
Qed.

End ParameterClaims.

(** ** Finite sums in exact arithmetic *)

Section ExactArithmetic.
Context {F : Type} {SF : Scalar F} {OR : OrderedRing F}.

Add Ring F_ring_inst : F_ring.

#[local] Notation "x ⊕ y" := (fadd x y) (at level 50, left associativity).
#[local] Notation "x ⊗ y" := (fmul x y) (at level 40, left associativity).
#[local] Notation "x ⊖ y" := (fsub x y) (at level 50, left associativity).

Lemma fsum_nil (lo n : Z) (f : Z → F) : n ≤ 0 → fsum lo n f = fzero.
Proof. intros Hn. unfold fsum. by rewrite seqZ_nil. Qed.

Lemma fsum_cons (lo n : Z) (f : Z → F) :
  0 < n → fsum lo n f = f lo ⊕ fsum (Z.succ lo) (Z.pred n) f.
Proof. intros Hn. unfold fsum. by rewrite seqZ_cons. Qed.

(** Induction over the range of a sum. *)
Lemma fsum_ind (P : Z → Z → Prop) :
  (∀ lo n, n ≤ 0 → P lo n) →
  (∀ lo n, 0 < n → P (Z.succ lo) (Z.pred n) → P lo n) →
  ∀ lo n, P lo n.
Proof.
  intros Hnil Hcons lo n.
  destruct (decide (n ≤ 0)) as [Hn|Hn]; [by apply Hnil|].
  rewrite <- (Z2Nat.id n) by lia. generalize (Z.to_nat n) as m. clear n Hn.
  intros m. revert lo. induction m as [|m IH]; intros lo.
  - apply Hnil. lia.
  - apply Hcons; [lia|].
    replace (Z.pred (Z.of_nat (S m))) with (Z.of_nat m) by lia. apply IH.
Qed.

Lemma fsum_ext (lo n : Z) (f g : Z → F) :
  (∀ k, lo ≤ k < lo + n → f k = g k) → fsum lo n f = fsum lo n g.
Proof.
  revert lo n. apply (fsum_ind (λ lo n, (∀ k, lo ≤ k < lo + n → f k = g k) →
                                        fsum lo n f = fsum lo n g)).
  - intros lo n Hn _. by rewrite !fsum_nil.
  - intros lo n Hn IH Hfg. rewrite !(fsum_cons lo n) by done.
    rewrite Hfg by lia. rewrite IH; [done|]. intros k Hk. apply Hfg. lia.
Qed.

Lemma fsum_zero (lo n : Z) : fsum lo n (λ _, fzero) = fzero.
Proof.
  revert lo n. apply fsum_ind.
  - intros lo n Hn. by rewrite fsum_nil.
  - intros lo n Hn IH. rewrite !(fsum_cons lo n) by done. rewrite IH. ring.
Qed.

Lemma fsum_add (lo n : Z) (f g : Z → F) :
  fsum lo n (λ k, f k ⊕ g k) = fsum lo n f ⊕ fsum lo n g.
Proof.
  revert lo n. apply fsum_ind.
  - intros lo n Hn. rewrite !fsum_nil by done. ring.
  - intros lo n Hn IH. rewrite !(fsum_cons lo n) by done. rewrite IH. ring.
Qed.

Lemma fsum_sub (lo n : Z) (f g : Z → F) :
  fsum lo n (λ k, f k ⊖ g k) = fsum lo n f ⊖ fsum lo n g.
Proof.
  revert lo n. apply fsum_ind.
  - intros lo n Hn. rewrite !fsum_nil by done. ring.
  - intros lo n Hn IH. rewrite !(fsum_cons lo n) by done. rewrite IH. ring.
Qed.

Lemma fsum_mul_l (lo n : Z) (c : F) (f : Z → F) :
  fsum lo n (λ k, c ⊗ f k) = c ⊗ fsum lo n f.
Proof.
  revert lo n. apply fsum_ind.
  - intros lo n Hn. rewrite !fsum_nil by done. ring.
  - intros lo n Hn IH. rewrite !(fsum_cons lo n) by done. rewrite IH. ring.
Qed.

Lemma fsum_mul_r (lo n : Z) (c : F) (f : Z → F) :
  fsum lo n (λ k, f k ⊗ c) = fsum lo n f ⊗ c.
Proof.
  revert lo n. apply fsum_ind.
  - intros lo n Hn. rewrite !fsum_nil by done. ring.
  - intros lo n Hn IH. rewrite !(fsum_cons lo n) by done. rewrite IH. ring.
Qed.

(** Two nested sums may be taken in either order. *)
Lemma fsum_exchange (lo n lo' n' : Z) (f : Z → Z → F) :
  fsum lo n (λ i, fsum lo' n' (λ j, f i j)) =
  fsum lo' n' (λ j, fsum lo n (λ i, f i j)).
Proof.
  revert lo n. apply fsum_ind.
  - intros lo n Hn. rewrite fsum_nil by done.
    rewrite <- (fsum_zero lo' n'). apply fsum_ext. intros j _.
    by rewrite fsum_nil.
  - intros lo n Hn IH. rewrite !(fsum_cons lo n) by done. rewrite IH.
    rewrite <- fsum_add. apply fsum_ext. intros j _.
    by rewrite (fsum_cons lo n) by done.
Qed.

(** A sum against a row of the identity matrix picks one term. *)
Lemma fsum_delta (lo n m : Z) (f : Z → F) :
  lo ≤ m < lo + n →
  fsum lo n (λ k, (if bool_decide (m = k) then fone else fzero) ⊗ f k) = f m.
Proof.
  revert lo n.
  apply (fsum_ind (λ lo n, lo ≤ m < lo + n →
    fsum lo n (λ k, (if bool_decide (m = k) then fone else fzero) ⊗ f k)
    = f m)).
  - intros lo n Hn Hm. lia.
  - intros lo n Hn IH Hm. rewrite !(fsum_cons lo n) by done.
    destruct (decide (m = lo)) as [->|Hne].
    + rewrite bool_decide_eq_true_2 by done.
      rewrite (fsum_ext _ _ _ (λ _, fzero)).
      * rewrite fsum_zero. ring.
      * intros k Hk. rewrite bool_decide_eq_false_2 by lia. ring.
    + rewrite bool_decide_eq_false_2 by done. rewrite IH by lia. ring.
Qed.

Lemma fle_add_nonneg (x y : F) : fle fzero y → fle x (x ⊕ y).
Proof.
  intros Hy. replace x with (x ⊕ fzero) at 1 by ring. by apply fle_add_l.
Qed.

Lemma fsum_squares_nonneg (lo n : Z) (f : Z → F) :
  fle fzero (fsum lo n (λ k, f k ⊗ f k)).
Proof.
  revert lo n. apply fsum_ind.
  - intros lo n Hn. rewrite fsum_nil by done. apply fle_refl.
  - intros lo n Hn IH. rewrite !(fsum_cons lo n) by done.
    eapply fle_trans; [apply fle_square|]. by apply fle_add_nonneg.
Qed.

(** A sum of squares vanishes only when every term does. *)
Lemma fsum_squares_zero (lo n : Z) (f : Z → F) :
  fsum lo n (λ k, f k ⊗ f k) = fzero → ∀ k, lo ≤ k < lo + n → f k = fzero.
Proof.
  revert lo n.
  apply (fsum_ind (λ lo n, fsum lo n (λ k, f k ⊗ f k) = fzero →
                           ∀ k, lo ≤ k < lo + n → f k = fzero)).
  - intros lo n Hn _ k Hk. lia.
  - intros lo n Hn IH Hsum k Hk. rewrite fsum_cons in Hsum by done.
    pose proof (fsum_squares_nonneg (Z.succ lo) (Z.pred n) f) as Hrest.
    pose proof (fle_square (f lo)) as Hhead.
    assert (f lo ⊗ f lo = fzero) as Hsq.
    { apply fle_antisym; [|done]. rewrite <- Hsum. by apply fle_add_nonneg. }
    rewrite Hsq in Hsum.
    assert (fsum (Z.succ lo) (Z.pred n) (λ k, f k ⊗ f k) = fzero) as Hrest0.
    { rewrite <- Hsum. ring. }
    destruct (decide (k = lo)) as [->|Hne].
    + by destruct (f_integral _ _ Hsq).
    + apply IH; [done|lia].
Qed.

(** ** Least squares through an orthogonal factorization *)

Section NormalEquations.

(** [N] observations, [n] coefficients; [A] the design matrix, [y] the
    responses, as functions of their indices. *)
Variables (N n : Z) (A : Z → Z → F) (y : Z → F).

(** Under the normal equations for [p], the cost of any [q] is the cost of
    [p] plus the squared norm of [A * (p - q)]. *)
Lemma cost_decomposition (p q : Z → F) :
  normal_equations N n A y p → cost N n A y q = cost N n A y p ⊕ gap N n A p q.
Proof.
  intros Hnormal. unfold cost, gap.
  set (d := λ l, p l ⊖ q l).
  set (r := λ i, y i ⊖ apply_to n A p i).
  assert (∀ i, apply_to n A d i = apply_to n A p i ⊖ apply_to n A q i) as Hd.
  { intros i. unfold apply_to. rewrite <- fsum_sub. apply fsum_ext.
    intros l _. unfold d. ring. }
  assert (fsum 0 N (λ i, r i ⊗ apply_to n A d i) = fzero) as Hcross.
  { unfold apply_to.
    rewrite (fsum_ext _ _ _ (λ i, fsum 0 n (λ l, d l ⊗ (A i l ⊗ r i)))).
    2:{ intros i _. rewrite <- fsum_mul_l. apply fsum_ext. intros l _. ring. }
    rewrite fsum_exchange.
    rewrite (fsum_ext _ _ _ (λ _, fzero)); [apply fsum_zero|].
    intros l Hl. rewrite fsum_mul_l. unfold r. rewrite Hnormal by lia. ring. }
  rewrite <- fsum_add.
  rewrite (fsum_ext _ _ _ (λ i,
    (r i ⊗ r i ⊕ apply_to n A d i ⊗ apply_to n A d i)
    ⊕ (r i ⊗ apply_to n A d i ⊕ r i ⊗ apply_to n A d i))).
  2:{ intros i _. rewrite Hd. unfold r. cbn beta. ring. }
  rewrite fsum_add.
  rewrite (fsum_add _ _ (λ i, r i ⊗ apply_to n A d i)).
  rewrite Hcross. subst r. cbn beta. ring.
Qed.

(** Such a [p] minimizes the cost. *)
Lemma normal_equations_minimal (p q : Z → F) :
  normal_equations N n A y p → fle (cost N n A y p) (cost N n A y q).
Proof.
  intros Hnormal. rewrite (cost_decomposition p q Hnormal).
  apply fle_add_nonneg, fsum_squares_nonneg.
Qed.

(** When only the zero vector is mapped to zero, it is the only minimizer. *)
Lemma normal_equations_unique (p q : Z → F) :
  normal_equations N n A y p →
  (∀ v, (∀ i, 0 ≤ i < N → apply_to n A v i = fzero) →
        ∀ k, 0 ≤ k < n → v k = fzero) →
  fle (cost N n A y q) (cost N n A y p) →
  ∀ k, 0 ≤ k < n → q k = p k.
Proof.
  intros Hnormal Hrank Hle k Hk.
  rewrite (cost_decomposition p q Hnormal) in Hle.
  assert (fle (gap N n A p q) fzero) as He.
  { apply (fle_add_l (fopp (cost N n A y p))) in Hle.
    replace (fopp (cost N n A y p) ⊕ (cost N n A y p ⊕ gap N n A p q))
      with (gap N n A p q) in Hle by ring.
    replace (fopp (cost N n A y p) ⊕ cost N n A y p)
      with fzero in Hle by ring.
    done. }
  assert (gap N n A p q = fzero) as He0.
  { apply fle_antisym; [done|]. apply fsum_squares_nonneg. }
  pose proof (fsum_squares_zero 0 N _ He0) as Hzero.
  assert (p k ⊖ q k = fzero) as Hpq.
  { apply (Hrank (λ l, p l ⊖ q l)); [|done]. intros i Hi. apply Hzero. lia. }
  replace (q k) with (p k ⊖ (p k ⊖ q k)) by ring. rewrite Hpq. ring.
Qed.

End NormalEquations.

Section OrthogonalFactor.

(** [Q] is [N] by [m] with orthonormal columns, [R] is [m] by [n]. *)
Variables (N m n : Z) (Q R : Z → Z → F).
Hypothesis Q_orthonormal : ∀ a b, 0 ≤ a < m → 0 ≤ b < m →
  fsum 0 N (λ i, Q i a ⊗ Q i b) = if bool_decide (a = b) then fone else fzero.

#[local] Abbreviation QR := (product m Q R).

(** [(Q R)^T z = R^T (Q^T z)]. *)
Lemma product_transpose_apply (z : Z → F) (k : Z) :
  fsum 0 N (λ i, QR i k ⊗ z i) =
  fsum 0 m (λ a, R a k ⊗ fsum 0 N (λ i, Q i a ⊗ z i)).
Proof.
  unfold product.
  rewrite (fsum_ext _ _ _ (λ i, fsum 0 m (λ a, R a k ⊗ (Q i a ⊗ z i)))).
  2:{ intros i _. rewrite <- fsum_mul_r. apply fsum_ext. intros a _. ring. }
  rewrite fsum_exchange. apply fsum_ext. intros a _. by rewrite fsum_mul_l.
Qed.

(** [(Q R) v = Q (R v)]. *)
Lemma product_apply (v : Z → F) (i : Z) :
  apply_to n QR v i = fsum 0 m (λ a, Q i a ⊗ apply_to n R v a).
Proof.
  unfold apply_to, product.
  rewrite (fsum_ext _ _ _ (λ l, fsum 0 m (λ a, Q i a ⊗ (R a l ⊗ v l)))).
  2:{ intros l _. rewrite <- fsum_mul_r. apply fsum_ext. intros a _. ring. }
  rewrite fsum_exchange. apply fsum_ext. intros a _. by rewrite fsum_mul_l.
Qed.

(** [Q^T (Q c) = c]. *)
Lemma orthonormal_cancel (c : Z → F) (a : Z) :
  0 ≤ a < m →
  fsum 0 N (λ i, Q i a ⊗ fsum 0 m (λ b, Q i b ⊗ c b)) = c a.
Proof.
  intros Ha.
  rewrite (fsum_ext _ _ _ (λ i, fsum 0 m (λ b, (Q i a ⊗ Q i b) ⊗ c b))).
  2:{ intros i _. rewrite <- fsum_mul_l. apply fsum_ext. intros b _. ring. }
  rewrite fsum_exchange.
  rewrite (fsum_ext _ _ _
    (λ b, (if bool_decide (a = b) then fone else fzero) ⊗ c b)).
  2:{ intros b Hb. rewrite fsum_mul_r. by rewrite Q_orthonormal by lia. }
  apply fsum_delta. lia.
Qed.

(** The normal equations of [R] with right-hand side [Q^T y] are those of
    [Q R] with right-hand side [y]. *)
Lemma normal_equations_transfer (y p : Z → F) (k : Z) :
  fsum 0 m (λ a, R a k ⊗ apply_to n R p a) =
    fsum 0 m (λ a, R a k ⊗ fsum 0 N (λ i, Q i a ⊗ y i)) →
  fsum 0 N (λ i, QR i k ⊗ (y i ⊖ apply_to n QR p i)) = fzero.
Proof.
  intros Hnormal.
  rewrite (fsum_ext _ _ _
    (λ i, QR i k ⊗ y i ⊖ QR i k ⊗ apply_to n QR p i)).
  2:{ intros i _. ring. }
  rewrite fsum_sub. rewrite !product_transpose_apply.
  rewrite <- Hnormal.
  rewrite (fsum_ext _ _
             (λ a, R a k ⊗ fsum 0 N (λ i, Q i a ⊗ apply_to n QR p i))
             (λ a, R a k ⊗ apply_to n R p a)).
  { ring. }
  intros a Ha. f_equal.
  rewrite (fsum_ext _ _ _
    (λ i, Q i a ⊗ fsum 0 m (λ b, Q i b ⊗ apply_to n R p b))).
  2:{ intros i _. by rewrite product_apply. }
  apply orthonormal_cancel. lia.
Qed.

(** If [Q R] has full column rank, so has [R]. *)
Lemma full_rank_transfer :
  (∀ v, (∀ i, 0 ≤ i < N → apply_to n QR v i = fzero) →
        ∀ k, 0 ≤ k < n → v k = fzero) →
  ∀ v, (∀ a, 0 ≤ a < m → apply_to n R v a = fzero) →
       ∀ k, 0 ≤ k < n → v k = fzero.
Proof.
  intros Hrank v Hv. apply Hrank. intros i Hi. rewrite product_apply.
  rewrite (fsum_ext _ _ _ (λ _, fzero)); [apply fsum_zero|].
  intros a Ha. rewrite Hv by lia. ring.
Qed.

End OrthogonalFactor.

End ExactArithmetic.

(** ** The fitted coefficients *)

Section LeastSquares.
Context {F : Type} {SF : Scalar F} {OR : OrderedRing F} {L : Lapack F}
  (T : Target).

Lemma get_trans (M : mat F) (i j : Z) :
  0 ≤ i < n_cols M → 0 ≤ j < n_rows M → get (trans M) i j = get M j i.
Proof. intros Hi Hj. unfold trans. by rewrite get_generate. Qed.

Lemma get_identity (n i j : Z) :
  0 ≤ i < n → 0 ≤ j < n →
  get (identity n) i j = if bool_decide (i = j) then fone else fzero.
Proof. intros Hi Hj. unfold identity. by rewrite get_generate. Qed.

Lemma mat_mul_returned (A B C : mat F) :
  mat_mul A B = Returned C →
  n_cols A = n_rows B ∧ n_rows C = n_rows A ∧ n_cols C = n_cols B ∧
  ∀ i j, 0 ≤ i < n_rows A → 0 ≤ j < n_cols B →
    get C i j = fsum 0 (n_cols A) (λ k, fmul (get A i k) (get B k j)).
Proof.
  unfold mat_mul. case_bool_decide as Hdim; [|done]. intros [= <-].
  repeat split; try done. intros i j Hi Hj. by rewrite get_generate.
Qed.

Lemma apply_to_ext (n : Z) (A A' : Z → Z → F) (v v' : Z → F) (i : Z) :
  (∀ l, 0 ≤ l < n → A i l = A' i l) → (∀ l, 0 ≤ l < n → v l = v' l) →
  apply_to n A v i = apply_to n A' v' i.
Proof.
  intros HA Hv. unfold apply_to. apply fsum_ext. intros l Hl.
  rewrite HA, Hv by lia. done.
Qed.

Lemma cost_ext (N n : Z) (A A' : Z → Z → F) (y y' v : Z → F) :
  (∀ i l, 0 ≤ i < N → 0 ≤ l < n → A i l = A' i l) →
  (∀ i, 0 ≤ i < N → y i = y' i) →
  cost N n A y v = cost N n A' y' v.
Proof.
  intros HA Hy. unfold cost. apply fsum_ext. intros i Hi.
  rewrite Hy by lia.
  rewrite (apply_to_ext n A A' v v i); [done| |done].
  intros l Hl. apply HA; lia.
Qed.

(** C1.  The fitting constructor augments every observation with a constant
    feature of value one (the design matrix has one row per observation, a
    first column of ones and then the features), factors the design matrix
    with [arma::qr] and takes its parameters from [arma::solve] applied to
    [R] and [trans(Q) * responses].  Provided [Q] has orthonormal columns
    with [Q * R] the design matrix, and the vector [arma::solve] stores
    solves [R * beta = trans(Q) * responses] in the least-squares sense
    whenever [R] has full column rank, then for a design matrix of full
    column rank the parameters minimize the squared norm of
    [responses - A * beta], and no other vector of that length does.
    Arithmetic is exact. *)
Theorem fit_least_squares (responses X Q R b p : mat F) :
  target_ok T → mat_wf X → mat_fits (with_intercept_row X) →
  n_cols responses = 1 →
  qr (design X) = Returned (Q, R) →
  mat_mul Q R = Returned (design X) →
  mat_mul (trans Q) Q = Returned (identity (n_cols Q)) →
  mat_mul (trans Q) responses = Returned b →
  solve (colvec_zeros empty_mat (n_cols X)) R b = Returned p →
  mat_wf p → n_rows p = n_cols R → n_cols p = 1 →
  (full_col_rank R →
     ∃ Rp g, mat_mul R p = Returned Rp ∧
             mat_mul (trans R) Rp = Returned g ∧
             mat_mul (trans R) b = Returned g) →
  full_col_rank (design X) →
  (n_rows (design X) = n_cols X ∧ n_cols (design X) = n_rows X + 1 ∧
   ∀ j, 0 ≤ j < n_cols X →
     get (design X) j 0 = fone ∧
     ∀ k, 1 ≤ k ≤ n_rows X → get (design X) j k = get X (k - 1) j) ∧
  LinearRegression_fit responses X = (Returned (Build_LinearRegression p), X) ∧
  (∀ beta, fle (rss (design X) responses p) (rss (design X) responses beta)) ∧
  (∀ beta, mat_wf beta → n_rows beta = n_rows X + 1 → n_cols beta = 1 →
     fle (rss (design X) responses beta) (rss (design X) responses p) →
     beta = p).
Proof.
  intros HT HX Hfits Hyc HQR Hprod Horth Hb Hp Hpwf Hpr Hpc Hsolve Hrank.
  destruct (design_entries X HX) as (Hdr & Hdc & Hent).
  destruct (mat_mul_returned _ _ _ Hprod) as (Hm & HN & Hn & Hprod').
  destruct (mat_mul_returned _ _ _ Horth) as (_ & _ & _ & Horth').
  destruct (mat_mul_returned _ _ _ Hb) as (HNy & Hbr & Hbc & Hb').
  cbn [trans generate n_rows n_cols] in Horth', Hb', HNy, Hbr, Hbc.
  pose proof HX as (HXr & HXc & _).
  set (N := n_rows Q) in *. set (m := n_cols Q) in *. set (n := n_cols R) in *.
  set (y := λ i, get responses i 0). set (pv := λ k, get p k 0).
  unfold full_col_rank in Hrank. rewrite HN, Hn in Hrank.
  (* the design matrix is the product of the factors *)
  assert (∀ i k, 0 ≤ i < N → 0 ≤ k < n →
            get (design X) i k = product m (get Q) (get R) i k) as HA.
  { intros i k Hi Hk. by rewrite Hprod' by done. }
  (* the columns of Q are orthonormal *)
  assert (∀ a c, 0 ≤ a < m → 0 ≤ c < m →
            fsum 0 N (λ i, fmul (get Q i a) (get Q i c)) =
            if bool_decide (a = c) then fone else fzero) as HQ.
  { intros a c Ha Hc. rewrite <- (get_identity m a c) by done.
    rewrite Horth' by done. apply fsum_ext. intros i Hi.
    by rewrite get_trans by (fold N m; lia). }
  (* R has full column rank *)
  assert (full_col_rank R) as HRrank.
  { unfold full_col_rank. fold n. rewrite <- Hm. intros v Hv.
    apply (full_rank_transfer N m n (get Q) (get R)); [|done].
    intros v' Hv' k Hk. apply (Hrank v'); [|done].
    intros i Hi. rewrite <- (Hv' i Hi).
    apply apply_to_ext; [|done]. intros l Hl. by apply HA. }
  (* the normal equations of the design matrix *)
  assert (∀ k, 0 ≤ k < n →
            fsum 0 N (λ i, fmul (product m (get Q) (get R) i k)
              (fsub (y i) (apply_to n (product m (get Q) (get R)) pv i)))
            = fzero) as Hnormal.
  { intros k Hk.
    destruct (Hsolve HRrank) as (Rp & g & HRp & Hg1 & Hg2).
    destruct (mat_mul_returned _ _ _ HRp) as (_ & _ & HRpc & HRp').
    destruct (mat_mul_returned _ _ _ Hg1) as (_ & _ & _ & Hg1').
    destruct (mat_mul_returned _ _ _ Hg2) as (_ & _ & _ & Hg2').
    cbn [trans generate n_rows n_cols] in Hg1', Hg2'.
    apply (normal_equations_transfer N m n (get Q) (get R) HQ).
    rewrite Hm.
    transitivity (get g k 0).
    - rewrite Hg1' by (fold n; lia). apply fsum_ext. intros a Ha.
      rewrite get_trans by (fold n; lia). f_equal.
      rewrite HRp' by lia. done.
    - rewrite Hg2' by (fold n; lia). apply fsum_ext. intros a Ha.
      rewrite get_trans by (fold n; lia). f_equal.
      rewrite Hb' by (fold m; lia). apply fsum_ext. intros i Hi.
      by rewrite get_trans by (fold N m; lia). }
  (* the cost on the design matrix is the cost on the product *)
  assert (∀ beta, rss (design X) responses beta =
            cost N n (product m (get Q) (get R)) y (λ k, get beta k 0)) as Hrss.
  { intros beta. unfold rss. rewrite HN, Hn. apply cost_ext; [|done].
    intros i l Hi Hl. by apply HA. }
  split; [done|]. split.
  { apply (fit_returns T); try done.
    unfold coefficients. rewrite HQR. cbn. rewrite Hb. cbn. done. }
  split.
  - intros beta. rewrite !Hrss. by apply normal_equations_minimal.
  - intros beta Hbwf Hbr' Hbc' Hle. rewrite !Hrss in Hle.
    assert (n = n_rows X + 1) as Hn' by lia.
    apply mat_ext; try done; try lia.
    intros i j Hi Hj. assert (j = 0) as -> by lia.
    apply (normal_equations_unique N n (product m (get Q) (get R)) y pv
             (λ k, get beta k 0)); try done; [|lia].
    intros v Hv k Hk. apply (Hrank v); [|done].
    intros i' Hi'. rewrite <- (Hv i' Hi').
    apply apply_to_ext; [|done]. intros l Hl. by apply HA.
Qed.

End LeastSquares.

(** ** Saving and loading again *)

Section RoundTrip.
Context {F : Type} (quantize : F → F) (approx : F → F → Prop).

(** C6.  In the store of flat numeric sequences, a [save] that succeeds
    followed by a [load] from the same destination succeeds and yields a
    column vector with as many elements as the original, each within the
    tolerance [approx] of the original one, given that the rounding of the
    on-disk format stays within that tolerance. *)
Theorem save_then_load (self self1 : LinearRegression F) (filename : string)
    (st st1 : store F) :
  (∀ x, approx x (quantize x)) →
  save (St := flat_storage quantize) self filename st = (true, self1, st1) →
  ∃ self2,
    load (St := flat_storage quantize) self1 filename st1 = (true, self2, st1) ∧
    n_rows (parameters self2) = Z.of_nat (length (mem (parameters self))) ∧
    n_cols (parameters self2) = 1 ∧
    Forall2 approx (mem (parameters self)) (mem (parameters self2)).
Proof.
  intros Happrox. unfold save, load. cbn [data_Save data_Load flat_storage].
  unfold write_file, read_file.
  destruct (writable st filename); cbn [fst snd]; [|done].
  intros [= <- <-]. cbn [files]. rewrite lookup_insert_eq. cbn [fst snd].
  eexists. split; [done|]. cbn [parameters n_rows n_cols mem].
  rewrite length_fmap. repeat split; try done.
  apply Forall2_fmap_r, Forall_Forall2_diag, Forall_forall. intros x _.
  apply Happrox.
Qed.

End RoundTrip.

(** ** What [load] and [save] report *)

Section Reports.
Context {F : Type} (quantize : F → F).

(** C7.  [load] and [save] return the flag of the storage routine they call
    and have no failure path of their own.  In the store of flat numeric
    sequences: [load] returns [false] exactly when the source is missing,
    and then only the flag tells, the store being untouched and the vector
    left without elements; it returns [true] exactly when the source holds a
    sequence, which is then the vector of the object.  [save] returns [false]
    exactly when the destination is not writable, and then neither the store
    nor the object has changed; it returns [true] exactly when the sequence
    was written. *)
Theorem load_save_report (self : LinearRegression F) (filename : string)
    (st : store F) :
  (∀ (fs : Type) (St : Storage F fs) (st' : fs),
     (load self filename st').1.1 =
       (data_Load filename (parameters self) st').1 ∧
     (save self filename st').1.1 =
       (data_Save filename (parameters self) st').1) ∧
  ((load (St := flat_storage quantize) self filename st).1.1 = false ↔
     files st !! filename = None) ∧
  (files st !! filename = None →
     load (St := flat_storage quantize) self filename st =
       (false, Build_LinearRegression (Mat 0 1 []), st)) ∧
  (∀ v, files st !! filename = Some v →
     load (St := flat_storage quantize) self filename st =
       (true, Build_LinearRegression (Mat (Z.of_nat (length v)) 1 v), st)) ∧
  ((save (St := flat_storage quantize) self filename st).1.1 = false ↔
     writable st filename = false) ∧
  (writable st filename = false →
     save (St := flat_storage quantize) self filename st = (false, self, st)) ∧
  (writable st filename = true →
     save (St := flat_storage quantize) self filename st =
       (true, self,
        {| files := <[filename := quantize <$> mem (parameters self)]>
                      (files st);
           writable := writable st |})).
Proof.
  split; [done|].
  unfold load, save. cbn [data_Load data_Save flat_storage].
  unfold read_file, write_file.
  destruct (files st !! filename) as [v|] eqn:Hfile;
    destruct (writable st filename) eqn:Hw; cbn [fst snd];
    repeat split; intros; simplify_eq; done.
Qed.

End Reports.

(** * Fitting and predicting together *)

(** ** [predict] without arithmetic laws *)

Section PredictOrder.
Context {F : Type} {SF : Scalar F} (T : Target).

(** [predict] adds, for every point, the intercept to zero and then the
    products [parameters(k) * points(k - 1, j)] one after the other in the
    order [k = 1, 2, ..., D].  No law of arithmetic is used: this is the
    value computed in floating point as well. *)
Theorem predict_sums_in_index_order (self : LinearRegression F)
    (predictions points : mat F) (D : Z) :
  target_ok T →
  mat_wf (parameters self) → mat_fits (parameters self) →
  n_rows (parameters self) = D + 1 → n_cols (parameters self) = 1 →
  mat_wf points → mat_fits points → n_rows points = D →
  ∃ out,
    predict self predictions points = Returned (self, out) ∧
    ∀ j, 0 ≤ j < n_cols points →
      elem out j =
      Returned
        (foldl (λ acc k, fadd acc (fmul (get (parameters self) k 0)
                                        (get points (k - 1) j)))
               (fadd fzero (get (parameters self) 0 0)) (seqZ 1 D)).
Proof.
  intros HT HP HPf HPr HPc Hpts Hptsf HD.
  pose proof Hpts as (Hr & _).
  destruct (predict_run T self predictions points) as (out & Hrun & Hout);
    try done; try lia.
  destruct Hout as (_ & _ & _ & Hel).
  exists out. split; [done|]. intros j Hj. rewrite Hel by done.
  unfold running_total. by replace (n_rows (parameters self) - 1) with D by lia.
Qed.

(** A mismatch of dimensions on a non-empty parameter vector aborts. *)
Lemma predict_aborts_on_mismatch (self : LinearRegression F)
    (predictions points : mat F) :
  target_ok T → mat_fits (parameters self) → 1 ≤ n_rows (parameters self) →
  mat_wf points → mat_fits points →
  n_rows points ≠ n_rows (parameters self) - 1 →
  predict self predictions points = Aborted.
Proof.
  intros HT [HPf _] HPr (Hr & _) [Hf _] Hne.
  pose proof (uword_le_size_t T HT) as Hle.
  unfold predict.
  rewrite to_size_t_small by lia. rewrite to_uword_small by lia.
  by rewrite bool_decide_eq_false_2 by done.
Qed.

(** The [j]-th element of a row vector, read without a check. *)
Lemma row_of_get (c : Z) (g : Z → F) (s : mat F) (j : Z) :
  row_of c g s → 0 ≤ j < c → get s 0 j = g j.
Proof.
  intros (Hr & Hc & Hlen & Hel) Hj. specialize (Hel j Hj).
  unfold elem in Hel. case_bool_decide; [|done].
  unfold get. rewrite Hr. replace (0 + j * 1) with j by lia.
  destruct (mem s !! Z.to_nat j); [|done]. cbn in Hel. by injection Hel as ->.
Qed.

(** The running total of a point is a function of its features. *)
Lemma running_total_ext (P points points' : mat F) (j j' i : Z) :
  (∀ k, 0 ≤ k < i - 1 → get points k j = get points' k j') →
  running_total P points j i = running_total P points' j' i.
Proof.
  intros Hget. unfold running_total.
  assert (∀ l a, (∀ k, k ∈ l → 1 ≤ k < i) →
    foldl (λ acc k, fadd acc (fmul (get P k 0) (get points (k - 1) j))) a l =
    foldl (λ acc k, fadd acc (fmul (get P k 0) (get points' (k - 1) j'))) a l)
    as Hfold.
  { induction l as [|k l IH]; intros a Hl; [done|]. cbn.
    rewrite (Hget (k - 1)) by (specialize (Hl k ltac:(left)); lia).
    apply IH. intros k' Hk'. apply Hl. by right. }
  apply Hfold. intros k Hk. apply elem_of_seqZ in Hk. lia.
Qed.

(** The prediction for a point depends on the features of that point only:
    not on the other points of the batch, nor on its place among them, nor
    on the vector passed in for the predictions. *)
Theorem predict_point_by_point (self : LinearRegression F)
    (predictions predictions' points points' : mat F) (j j' : Z) :
  target_ok T →
  mat_wf (parameters self) → mat_fits (parameters self) →
  n_cols (parameters self) = 1 → 1 ≤ n_rows (parameters self) →
  mat_wf points → mat_fits points →
  n_rows points = n_rows (parameters self) - 1 →
  mat_wf points' → mat_fits points' →
  n_rows points' = n_rows (parameters self) - 1 →
  0 ≤ j < n_cols points → 0 ≤ j' < n_cols points' →
  (∀ k, 0 ≤ k < n_rows points → get points k j = get points' k j') →
  ∃ out out',
    predict self predictions points = Returned (self, out) ∧
    predict self predictions' points' = Returned (self, out') ∧
    elem out j = elem out' j'.
Proof.
  intros HT HP HPf HPc HPr Hpts Hptsf Hrows Hpts' Hptsf' Hrows' Hj Hj' Hget.
  destruct (predict_run T self predictions points)
    as (out & Hrun & (_ & _ & _ & Hel)); try done.
  destruct (predict_run T self predictions' points')
    as (out' & Hrun' & (_ & _ & _ & Hel')); try done.
  exists out, out'. split; [done|]. split; [done|].
  rewrite Hel, Hel' by done. f_equal.
  apply running_total_ext. intros k Hk. apply Hget. lia.
Qed.

End PredictOrder.

(** ** The constructor from a file and [predict] *)

Section FailedLoad.
Context {F fs : Type} {SF : Scalar F} {St : Storage F fs} (T : Target).

(** An object built by the constructor from a file name whose load failed
    and left the vector empty cannot predict: on every points matrix
    [predict] aborts in its assertion (or, for a matrix of [2 ^ w - 1] rows,
    throws from the read of [parameters(0)]); it never returns. *)
Theorem predict_after_failed_load (filename : string) (st : fs)
    (m predictions points : mat F) :
  target_ok T →
  arma_load filename empty_mat st = (false, m) → n_rows m = 0 →
  mat_wf points → mat_fits points →
  predict (LinearRegression_from_file filename st) predictions points =
    (if bool_decide (n_rows points = 2 ^ uword_bits - 1)
     then Thrown else Aborted) ∧
  ∀ r, predict (LinearRegression_from_file filename st) predictions points
       ≠ Returned r.
Proof.
  intros HT Hload Hempty (Hr & _) [Hf _].
  pose proof (uword_le_size_t T HT) as Hle.
  pose proof (uword_range_pos T HT) as Hpos.
  unfold LinearRegression_from_file. rewrite Hload. cbn [snd].
  assert (predict (Build_LinearRegression m) predictions points =
          if bool_decide (n_rows points = 2 ^ uword_bits - 1)
          then Thrown else Aborted) as Hrun.
  { unfold predict. cbn [parameters]. rewrite Hempty.
    rewrite (to_size_t_small (n_rows points)) by lia.
    assert (to_uword (0 - 1) = 2 ^ uword_bits - 1) as ->.
    { unfold to_uword. symmetry. apply (Z.mod_unique _ _ (-1)); lia. }
    case_bool_decide; [|done].
    by rewrite elem_empty. }
  split; [done|]. intros r. rewrite Hrun. by case_bool_decide.
Qed.

End FailedLoad.

(** ** Responses of the wrong length *)

Section WrongLength.
Context {F : Type} {SF : Scalar F} {L : Lapack F} (T : Target).

(** The source does not compare the number of responses with the number of
    observations.  When they differ (and [arma::qr] has stored a [Q] with
    one row per observation), [trans(Q) * responses] throws, the
    constructor is left before [shed_row], and the caller's predictors keep
    the row of ones: one row more than before the call. *)
Theorem fit_wrong_length_responses (responses X Q R : mat F) :
  target_ok T → mat_wf X → mat_fits (with_intercept_row X) →
  qr (design X) = Returned (Q, R) → n_rows Q = n_cols X →
  n_rows responses ≠ n_cols X →
  ∃ X',
    LinearRegression_fit responses X = (Thrown, X') ∧
    n_rows X' = n_rows X + 1 ∧ n_cols X' = n_cols X ∧
    (∀ j, 0 ≤ j < n_cols X →
       get X' 0 j = fone ∧
       ∀ i, 0 ≤ i < n_rows X → get X' (i + 1) j = get X i j).
Proof.
  intros HT HX Hfits HQR HQ Hne. pose proof HX as (Hr & Hc & _).
  exists (with_intercept_row X). split; [|split; [done|split; [done|]]].
  - rewrite (fit_run T responses X HT HX Hfits).
    unfold coefficients. rewrite HQR. cbn.
    unfold mat_mul. cbn [trans generate n_cols].
    rewrite bool_decide_eq_false_2 by congruence. done.
  - intros j Hj. unfold with_intercept_row. split.
    + rewrite get_generate by lia. by rewrite bool_decide_eq_true_2.
    + intros i Hi. rewrite get_generate by lia.
      rewrite bool_decide_eq_false_2 by lia. f_equal. lia.
Qed.

(** A model fitted on [D] features accepts exactly the points with [D]
    features: given that the numerical calls returned a column vector [p]
    of length [D + 1], the constructor returns, and [predict] on the object
    aborts when the points have another number of rows and returns one
    value per point when they have [D]. *)
Theorem fitted_model_accepts_same_dimension (responses X p : mat F)
    (predictions points : mat F) :
  target_ok T → mat_wf X → mat_fits (with_intercept_row X) →
  coefficients responses X = Returned p →
  mat_wf p → n_rows p = n_rows X + 1 → n_cols p = 1 →
  mat_wf points → mat_fits points →
  ∃ obj,
    LinearRegression_fit responses X = (Returned obj, X) ∧
    (n_rows points ≠ n_rows X →
       predict obj predictions points = Aborted) ∧
    (n_rows points = n_rows X →
       ∃ out, predict obj predictions points = Returned (obj, out) ∧
              n_rows out = 1 ∧ n_cols out = n_cols points).
Proof.
  intros HT HX Hfits Hp Hpwf Hpr Hpc Hpts Hptsf.
  pose proof HX as (Hr & Hc & _).
  pose proof (uword_range_pos T HT) as Hpos.
  assert (mat_fits p) as Hpf.
  { destruct Hfits as [Hf _]. cbn [with_intercept_row generate n_rows] in Hf.
    split; lia. }
  exists (Build_LinearRegression p). split; [by apply (fit_returns T)|]. split.
  - intros Hne. apply (predict_aborts_on_mismatch T); cbn [parameters];
      try done; lia.
  - intros Heq.
    destruct (predict_run T (Build_LinearRegression p) predictions points)
      as (out & Hrun & (Hor & Hoc & _)); cbn [parameters]; try done; try lia.
    exists out. done.
Qed.

End WrongLength.

(** ** Fitting and predicting in exact arithmetic *)

Section FitAndPredict.
Context {F : Type} {SF : Scalar F} {OR : OrderedRing F} {L : Lapack F}
  (T : Target).

Add Ring F_ring_fit : F_ring.

(** The additions of a ring are exact. *)
Lemma ring_exact_sum : ExactSum F.
Proof. split; intros; ring. Qed.

(** On the matrix the constructor was given, [predict] computes the product
    of the design matrix with the parameter vector. *)
Lemma predict_design (P X predictions : mat F) :
  target_ok T → mat_wf X → mat_fits (with_intercept_row X) →
  mat_wf P → n_rows P = n_rows X + 1 → n_cols P = 1 →
  ∃ out,
    predict (Build_LinearRegression P) predictions X =
      Returned (Build_LinearRegression P, out) ∧
    n_rows out = 1 ∧ n_cols out = n_cols X ∧
    ∀ j, 0 ≤ j < n_cols X →
      get out 0 j =
      apply_to (n_rows X + 1) (get (design X)) (λ k, get P k 0) j.
Proof.
  intros HT HX Hfits HP HPr HPc.
  pose proof HX as (Hr & Hc & _).
  pose proof (uword_range_pos T HT) as Hpos.
  destruct Hfits as [Hf1 Hf2].
  cbn [with_intercept_row generate n_rows n_cols] in Hf1, Hf2.
  destruct (design_entries X HX) as (_ & _ & Hent).
  destruct (predict_run T (Build_LinearRegression P) predictions X)
    as (out & Hrun & Hout);
    cbn [parameters]; try done; try lia; try (split; lia).
  exists out. split; [done|].
  pose proof Hout as (Hor & Hoc & _ & _).
  split; [done|]. split; [done|]. intros j Hj.
  rewrite (row_of_get _ _ _ _ Hout Hj). cbn [parameters].
  rewrite (running_total_exact (ES := ring_exact_sum)).
  unfold apply_to. rewrite (fsum_cons 0 (n_rows X + 1)) by lia.
  destruct (Hent j Hj) as (H0 & Hk). rewrite H0.
  replace (Z.succ 0) with 1 by lia.
  replace (Z.pred (n_rows X + 1)) with (n_rows X) by lia.
  rewrite HPr. replace (n_rows X + 1 - 1) with (n_rows X) by lia.
  rewrite (fsum_ext 1 (n_rows X)
             (λ l, fmul (get (design X) j l) (get P l 0))
             (λ k, fmul (get P k 0) (get X (k - 1) j))).
  - ring.
  - intros k Hk'. rewrite Hk by lia. ring.
Qed.

(** The squared error of values that are the rows of [A * v]. *)
Lemma squared_error_cost (N n : Z) (A : Z → Z → F) (y yhat v : Z → F) :
  (∀ j, 0 ≤ j < N → yhat j = apply_to n A v j) →
  squared_error N y yhat = cost N n A y v.
Proof.
  intros Hy. unfold squared_error, cost. apply fsum_ext. intros j Hj.
  by rewrite Hy by lia.
Qed.

(** The vector the constructor stores satisfies the normal equations of the
    design matrix. *)
Lemma fit_normal_equations (responses X Q R b p : mat F) :
  mat_wf X → n_cols responses = 1 →
  lapack_contract responses X Q R b p → full_col_rank (design X) →
  coefficients responses X = Returned p ∧
  mat_wf p ∧ n_rows p = n_rows X + 1 ∧ n_cols p = 1 ∧
  normal_equations (n_cols X) (n_rows X + 1) (get (design X))
    (λ i, get responses i 0) (λ k, get p k 0).
Proof.
  intros HX Hyc
    (HQR & Hprod & Horth & Hb & Hp & Hpwf & Hpr & Hpc & Hsolve) Hrank.
  destruct (design_entries X HX) as (Hdr & Hdc & Hent).
  destruct (mat_mul_returned _ _ _ Hprod) as (Hm & HN & Hn & Hprod').
  destruct (mat_mul_returned _ _ _ Horth) as (_ & _ & _ & Horth').
  destruct (mat_mul_returned _ _ _ Hb) as (HNy & Hbr & Hbc & Hb').
  cbn [trans generate n_rows n_cols] in Horth', Hb', HNy, Hbr, Hbc.
  pose proof HX as (HXr & HXc & _).
  set (N := n_rows Q) in *. set (m := n_cols Q) in *. set (n := n_cols R) in *.
  set (y := λ i, get responses i 0). set (pv := λ k, get p k 0).
  unfold full_col_rank in Hrank. rewrite HN, Hn in Hrank.
  assert (∀ i k, 0 ≤ i < N → 0 ≤ k < n →
            get (design X) i k = product m (get Q) (get R) i k) as HA.
  { intros i k Hi Hk. by rewrite Hprod' by done. }
  assert (∀ a c, 0 ≤ a < m → 0 ≤ c < m →
            fsum 0 N (λ i, fmul (get Q i a) (get Q i c)) =
            if bool_decide (a = c) then fone else fzero) as HQ.
  { intros a c Ha Hc. rewrite <- (get_identity m a c) by done.
    rewrite Horth' by done. apply fsum_ext. intros i Hi.
    by rewrite get_trans by (fold N m; lia). }
  assert (full_col_rank R) as HRrank.
  { unfold full_col_rank. fold n. rewrite <- Hm. intros v Hv.
    apply (full_rank_transfer N m n (get Q) (get R)); [|done].
    intros v' Hv' k Hk. apply (Hrank v'); [|done].
    intros i Hi. rewrite <- (Hv' i Hi).
    apply apply_to_ext; [|done]. intros l Hl. by apply HA. }
  split. { unfold coefficients. rewrite HQR. cbn. rewrite Hb. cbn. done. }
  split; [done|]. split; [lia|]. split; [done|].
  intros k Hk.
  replace (n_cols X) with N by lia. replace (n_rows X + 1) with n in * by lia.
  destruct (Hsolve HRrank) as (Rp & g & HRp & Hg1 & Hg2).
  destruct (mat_mul_returned _ _ _ HRp) as (_ & _ & HRpc & HRp').
  destruct (mat_mul_returned _ _ _ Hg1) as (_ & _ & _ & Hg1').
  destruct (mat_mul_returned _ _ _ Hg2) as (_ & _ & _ & Hg2').
  cbn [trans generate n_rows n_cols] in Hg1', Hg2'.
  transitivity
    (fsum 0 N (λ i, fmul (product m (get Q) (get R) i k)
       (fsub (y i) (apply_to n (product m (get Q) (get R)) pv i)))).
  { apply fsum_ext. intros i Hi. rewrite HA by lia. do 2 f_equal.
    apply apply_to_ext; [|done]. intros l Hl. apply HA; lia. }
  apply (normal_equations_transfer N m n (get Q) (get R) HQ).
  rewrite Hm.
  transitivity (get g k 0).
  - rewrite Hg1' by (fold n; lia). apply fsum_ext. intros a Ha.
    rewrite get_trans by (fold n; lia). f_equal.
    rewrite HRp' by lia. done.
  - rewrite Hg2' by (fold n; lia). apply fsum_ext. intros a Ha.
    rewrite get_trans by (fold n; lia). f_equal.
    rewrite Hb' by (fold m; lia). apply fsum_ext. intros i Hi.
    by rewrite get_trans by (fold N m; lia).
Qed.

(** [predict] applies the matrix the constructor factors: called on the
    predictors of a fit, it returns for observation [j] the [j]-th row of the
    design matrix (a one, then the features) times the parameter vector. *)
Theorem predict_is_design_times_parameters (P X predictions : mat F) :
  target_ok T → mat_wf X → mat_fits (with_intercept_row X) →
  mat_wf P → n_rows P = n_rows X + 1 → n_cols P = 1 →
  ∃ out,
    predict (Build_LinearRegression P) predictions X =
      Returned (Build_LinearRegression P, out) ∧
    n_rows out = 1 ∧ n_cols out = n_rows (design X) ∧
    ∀ j, 0 ≤ j < n_rows (design X) →
      get out 0 j =
      fsum 0 (n_cols (design X)) (λ k, fmul (get (design X) j k) (get P k 0)).
Proof.
  intros HT HX Hfits HP HPr HPc.
  destruct (design_entries X HX) as (Hdr & Hdc & _). rewrite Hdr, Hdc.
  by apply predict_design.
Qed.

(** With the intercept in the model, the residuals of a fit on its own
    training data sum to zero: the predictions of the fitted object on the
    predictors have the same total as the responses. *)
Theorem fit_residuals_sum_to_zero (responses X Q R b p predictions : mat F) :
  target_ok T → mat_wf X → mat_fits (with_intercept_row X) →
  n_cols responses = 1 →
  lapack_contract responses X Q R b p → full_col_rank (design X) →
  ∃ obj out,
    LinearRegression_fit responses X = (Returned obj, X) ∧
    predict obj predictions X = Returned (obj, out) ∧
    fsum 0 (n_cols X) (λ j, fsub (get responses j 0) (get out 0 j)) = fzero.
Proof.
  intros HT HX Hfits Hyc Hcontract Hrank.
  destruct (fit_normal_equations responses X Q R b p)
    as (Hcoef & Hpwf & Hpr & Hpc & Hnormal); try done.
  destruct (predict_design p X predictions) as (out & Hrun & _ & _ & Hout);
    try done.
  destruct (design_entries X HX) as (_ & _ & Hent).
  pose proof HX as (HXr & HXc & _).
  exists (Build_LinearRegression p), out.
  split; [by apply (fit_returns T)|]. split; [done|].
  rewrite <- (Hnormal 0) by lia. apply fsum_ext. intros j Hj.
  destruct (Hent j) as (-> & _); [lia|]. rewrite Hout by lia. ring.
Qed.

(** The fitted object has the least squared error on its training data:
    its predictions on the predictors are at least as close to the responses
    as those of an object holding any other parameter vector. *)
Theorem fit_minimizes_training_error
    (responses X Q R b p other predictions : mat F) :
  target_ok T → mat_wf X → mat_fits (with_intercept_row X) →
  n_cols responses = 1 →
  lapack_contract responses X Q R b p → full_col_rank (design X) →
  mat_wf other → n_rows other = n_rows X + 1 → n_cols other = 1 →
  ∃ obj out out',
    LinearRegression_fit responses X = (Returned obj, X) ∧
    predict obj predictions X = Returned (obj, out) ∧
    predict (Build_LinearRegression other) predictions X =
      Returned (Build_LinearRegression other, out') ∧
    fle (squared_error (n_cols X) (λ j, get responses j 0) (λ j, get out 0 j))
        (squared_error (n_cols X) (λ j, get responses j 0)
           (λ j, get out' 0 j)).
Proof.
  intros HT HX Hfits Hyc Hcontract Hrank Ho Hor Hoc.
  destruct (fit_normal_equations responses X Q R b p)
    as (Hcoef & Hpwf & Hpr & Hpc & Hnormal); try done.
  destruct (predict_design p X predictions) as (out & Hrun & _ & _ & Hout);
    try done.
  destruct (predict_design other X predictions)
    as (out' & Hrun' & _ & _ & Hout'); try done.
  exists (Build_LinearRegression p), out, out'.
  split; [by apply (fit_returns T)|]. split; [done|]. split; [done|].
  rewrite (squared_error_cost (n_cols X) (n_rows X + 1) (get (design X)) _ _
             (λ k, get p k 0)) by done.
  rewrite (squared_error_cost (n_cols X) (n_rows X + 1) (get (design X)) _ _
             (λ k, get other k 0)) by done.
  by apply normal_equations_minimal.
Qed.

(** Predicting and fitting are inverse on exact data: when the responses are
    the predictions of a parameter vector [beta] on the predictors, and the
    design matrix has full column rank, the constructor recovers [beta]. *)
Theorem fit_recovers_exact_model
    (beta responses X Q R b p predictions out : mat F) :
  target_ok T → mat_wf X → mat_fits (with_intercept_row X) →
  n_cols responses = 1 →
  mat_wf beta → n_rows beta = n_rows X + 1 → n_cols beta = 1 →
  predict (Build_LinearRegression beta) predictions X =
    Returned (Build_LinearRegression beta, out) →
  (∀ j, 0 ≤ j < n_cols X → get responses j 0 = get out 0 j) →
  lapack_contract responses X Q R b p → full_col_rank (design X) →
  LinearRegression_fit responses X = (Returned (Build_LinearRegression beta), X).
Proof.
  intros HT HX Hfits Hyc Hb Hbr Hbc Hrun Hy Hcontract Hrank.
  destruct (fit_normal_equations responses X Q R b p)
    as (Hcoef & Hpwf & Hpr & Hpc & Hnormal); try done.
  destruct (predict_design beta X predictions) as (out' & Hrun' & _ & _ & Hout);
    try done.
  rewrite Hrun in Hrun'. injection Hrun' as <-.
  destruct (design_entries X HX) as (Hdr & Hdc & _).
  assert (beta = p) as ->; [|by apply (fit_returns T)].
  apply mat_ext; try done; try lia.
  intros i j Hi Hj. assert (j = 0) as -> by lia.
  apply (normal_equations_unique (n_cols X) (n_rows X + 1) (get (design X))
           (λ i, get responses i 0) (λ k, get p k 0) (λ k, get beta k 0));
    [done| | |lia].
  - intros v Hv k Hk. apply (Hrank v).
    + intros l Hl. rewrite Hdc. apply Hv. lia.
    + lia.
  - assert (cost (n_cols X) (n_rows X + 1) (get (design X))
              (λ i, get responses i 0) (λ k, get beta k 0) = fzero) as ->.
    { unfold cost. rewrite (fsum_ext _ _ _ (λ _, fzero)); [apply fsum_zero|].
      intros l Hl. cbn beta. rewrite Hy, Hout by lia. ring. }
    unfold cost. apply fsum_squares_nonneg.
Qed.

End FitAndPredict.

(** * The model on concrete inputs *)

#[local] Existing Instance Z_scalar.
#[local] Existing Instance double_scalar.

(** ** The assertion of [predict] on an empty parameter vector *)

(** C4.  An object whose parameter vector is empty (as the constructor from
    a file name leaves it when the load fails) and a well-formed points matrix
    with [2 ^ w - 1] rows and no column, [w] the width of [uword]:
    [parameters.n_rows - 1] wraps around to [2 ^ w - 1], the assertion
    passes although the number of features is not the length of the vector
    minus one, and [predict] fails in the bounds check of [parameters(0)]
    instead of aborting. *)
Theorem predict_empty_parameters :
  let self := Build_LinearRegression (Mat 0 1 ([] : list Z)) in
  let points32 := Mat 4294967295 0 ([] : list Z) in
  let points64 := Mat 18446744073709551615 0 ([] : list Z) in
  (mat_wf points32 ∧ mat_fits (T := lp64_u32) points32 ∧
   n_rows points32 ≠ n_rows (parameters self) - 1 ∧
   predict (SF := Z_scalar) (T := lp64_u32) self empty_mat points32 = Thrown) ∧
  (mat_wf points64 ∧ mat_fits (T := lp64_u64) points64 ∧
   n_rows points64 ≠ n_rows (parameters self) - 1 ∧
   predict (SF := Z_scalar) (T := lp64_u64) self empty_mat points64 = Thrown).
Proof.
  cbv zeta. unfold mat_wf, mat_fits, n_elem. cbn [n_rows n_cols mem parameters].
  repeat split; try (cbn; lia); try done; vm_compute; reflexivity.
Qed.

(** ** A fit and its predictions *)

Lemma lp64_u32_ok : target_ok lp64_u32.
Proof. unfold target_ok. cbn. lia. Qed.

(** The scenario of the spec: predictors 1, 2, 3 with responses 3, 5, 7 fit
    to intercept 1 and slope 2, and the point 4 is predicted as 9. *)
Example fit_then_predict :
  let obj := Build_LinearRegression (Mat 2 1 [1; 2]) in
  LinearRegression_fit (SF := Z_scalar) (T := lp64_u32) (L := exact_lapack)
    (Mat 3 1 [3; 5; 7]) (Mat 1 3 [1; 2; 3])
    = (Returned obj, Mat 1 3 [1; 2; 3]) ∧
  getParameters obj = (obj, Mat 2 1 [1; 2]) ∧
  predict (SF := Z_scalar) (T := lp64_u32) obj empty_mat (Mat 1 1 [4])
    = Returned (obj, Mat 1 1 [9]).
Proof.
  cbv zeta. split; [|split].
  - vm_compute. reflexivity.
  - reflexivity.
  - vm_compute. reflexivity.
Qed.

Lemma sample_design_full_rank :
  full_col_rank (design sample_predictors).
Proof.
  intros v Hv k Hk.
  pose proof (Hv 1 ltac:(cbn; lia)) as H1.
  pose proof (Hv 2 ltac:(cbn; lia)) as H2.
  change (1 * v 0 + (0 * v 1 + 0) = 0) in H1.
  change (1 * v 0 + (1 * v 1 + 0) = 0) in H2.
  change (0 ≤ k < 2) in Hk. change (v k = 0).
  assert (k = 0 ∨ k = 1) as [-> | ->] by lia; lia.
Qed.

Lemma fit_least_squares_witness :
  LinearRegression_fit (SF := Z_scalar) (T := lp64_u32) (L := exact_lapack)
    sample_responses sample_predictors =
    (Returned (Build_LinearRegression (Mat 2 1 [3; 2])), sample_predictors) ∧
  ∀ beta,
    rss (OR := Z_ordered_ring) (design sample_predictors) sample_responses
        (Mat 2 1 [3; 2]) ≤
    rss (OR := Z_ordered_ring) (design sample_predictors) sample_responses beta.
Proof.
  pose proof (fit_least_squares (OR := Z_ordered_ring) (L := exact_lapack)
    lp64_u32 sample_responses sample_predictors
    (identity 3) (design sample_predictors) sample_responses (Mat 2 1 [3; 2]))
    as Hfit.
  destruct Hfit as (_ & Hrun & Hmin & _).
  - exact lp64_u32_ok.
  - vm_compute. intuition discriminate.
  - vm_compute. done.
  - reflexivity.
  - reflexivity.
  - vm_compute. reflexivity.
  - vm_compute. reflexivity.
  - vm_compute. reflexivity.
  - vm_compute. reflexivity.
  - vm_compute. intuition discriminate.
  - reflexivity.
  - reflexivity.
  - intros _. exists (Mat 3 1 [1; 3; 5]), (Mat 2 1 [9; 4]).
    split; [|split]; vm_compute; reflexivity.
  - exact sample_design_full_rank.
  - split; [exact Hrun|exact Hmin].
Defined.

Lemma sample_coefficients :
  coefficients (SF := Z_scalar) (L := exact_lapack)
    sample_responses sample_predictors = Returned (Mat 2 1 [3; 2]).
Proof. vm_compute. reflexivity. Qed.

Ltac shape := unfold mat_wf, mat_fits, n_elem; cbn; lia.

Lemma predict_affine_witness :
  ∃ out,
    predict (T := lp64_u32) sample_model empty_mat sample_points
      = Returned (sample_model, out) ∧
    n_rows out = 1 ∧ n_cols out = 2 ∧ Z.of_nat (length (mem out)) = 2 ∧
    ∀ j, 0 ≤ j < 2 →
      elem out j =
      Returned
        (foldl (λ acc k, acc + get (SF := Z_scalar) (parameters sample_model) k 0
                               * get (SF := Z_scalar) sample_points (k - 1) j)
               (0 + 1) (seqZ 1 2)) ∧
      elem out j =
      Returned (1 + fsum (SF := Z_scalar) 1 2 (λ k,
                  get (SF := Z_scalar) (parameters sample_model) k 0 *
                  get (SF := Z_scalar) sample_points (k - 1) j)).
Proof.
  destruct (predict_affine (SF := Z_scalar) lp64_u32
              sample_model empty_mat sample_points 2 2)
    as (out & Hrun & Hr & Hc & Hl & Hel);
    [exact lp64_u32_ok | shape | shape | reflexivity | reflexivity
    | shape | shape | reflexivity | reflexivity | ].
  exists out.
  split; [exact Hrun|]. split; [exact Hr|]. split; [exact Hc|].
  split; [exact Hl|].
  intros j Hj. destruct (Hel j Hj) as [Hfold Hexact].
  split; [exact Hfold|exact (Hexact Z_exact_sum)].
Defined.

(** The claim C2 as stated fails in the arithmetic of [double].  With
    parameters [(2 ^ 53, 1, -1)] and the point [(1, 2 ^ 53)], the loop
    computes [(2 ^ 53 + 1 * 1) + (-1) * 2 ^ 53], where [2 ^ 53 + 1] rounds to
    [2 ^ 53]: [predict] returns [0].  The intercept plus the sum of the
    products, [2 ^ 53 + (1 * 1 + (-1) * 2 ^ 53)], is [1] in the same
    arithmetic, and [1] is what the model returns over the integers. *)
Lemma predict_affine_rounding :
  (mat_wf (parameters double_model) ∧ mat_wf double_point ∧
   n_rows (parameters double_model) = 2 + 1 ∧ n_rows double_point = 2) ∧
  predict (SF := double_scalar) (T := lp64_u64) double_model empty_mat
    double_point = Returned (double_model, Mat 1 1 [0%float]) ∧
  fadd (get (parameters double_model) 0 0)
    (fsum 1 2
       (λ k, fmul (get (parameters double_model) k 0)
                  (get double_point (k - 1) 0)))
    = 1%float ∧
  elem (Mat 1 1 [0%float]) 0 ≠
    Returned
      (fadd (get (parameters double_model) 0 0)
         (fsum 1 2
            (λ k, fmul (get (parameters double_model) k 0)
                       (get double_point (k - 1) 0)))) ∧
  predict (SF := Z_scalar) (T := lp64_u64) integer_model empty_mat
    integer_point = Returned (integer_model, Mat 1 1 [1]).
Proof.
  split; [|split; [|split; [|split]]].
  - unfold mat_wf, n_elem. cbn. lia.
  - vm_compute. reflexivity.
  - vm_compute. reflexivity.
  - intros H.
    apply (f_equal (λ o, match o with
                         | Returned x => PrimFloat.eqb x 1%float
                         | _ => false
                         end)) in H.
    vm_compute in H. discriminate H.
  - vm_compute. reflexivity.
Qed.

Lemma fit_restores_predictors_witness :
  LinearRegression_fit (SF := Z_scalar) (T := lp64_u32) (L := exact_lapack)
    sample_responses sample_predictors =
    (Returned (Build_LinearRegression (Mat 2 1 [3; 2])), sample_predictors).
Proof.
  apply (fit_restores_predictors (L := exact_lapack) lp64_u32
           sample_responses sample_predictors lp64_u32_ok);
    [shape | shape | exact sample_coefficients].
Defined.

Lemma fit_parameter_vector_witness :
  LinearRegression_fit (SF := Z_scalar) (T := lp64_u32) (L := exact_lapack)
    sample_responses sample_predictors =
    (Returned (Build_LinearRegression (Mat 2 1 [3; 2])), sample_predictors) ∧
  ∃ out,
    predict (T := lp64_u32) (Build_LinearRegression (Mat 2 1 [3; 2]))
      empty_mat (Mat 1 2 [4; 5]) =
      Returned (Build_LinearRegression (Mat 2 1 [3; 2]), out) ∧
    ∀ j, 0 ≤ j < 2 →
      elem out j =
      Returned
        (foldl (λ acc k, acc + get (SF := Z_scalar) (Mat 2 1 [3; 2]) k 0
                               * get (SF := Z_scalar) (Mat 1 2 [4; 5]) (k - 1) j)
               (0 + 3) (seqZ 1 1)).
Proof.
  destruct (fit_parameter_vector (L := exact_lapack) (St := flat_storage id)
              lp64_u32 sample_responses sample_predictors
              (identity 3) (design sample_predictors) sample_responses
              (Mat 2 1 [3; 2]) 1) as (Hfit & _ & Hshape & _);
    [exact lp64_u32_ok | shape | shape | reflexivity
    | reflexivity | vm_compute; reflexivity | vm_compute; reflexivity | ].
  split; [exact Hfit|].
  destruct Hshape as (_ & _ & Hpredict);
    [reflexivity | shape | reflexivity | reflexivity | ].
  apply (Hpredict empty_mat (Mat 1 2 [4; 5])); [shape | shape | reflexivity].
Defined.

(** The claim C5 as stated fails when [arma::solve] finds no solution.  On a
    feature that is zero for every observation the system is singular,
    [arma::solve] resets the vector, and the constructor returns an object
    whose parameter vector is empty, not of length [D + 1 = 2]. *)
Lemma fit_keeps_emptied_vector :
  (mat_wf constant_predictors ∧ mat_fits (T := lp64_u32) constant_predictors ∧
   n_rows constant_predictors = 1) ∧
  LinearRegression_fit (SF := Z_scalar) (T := lp64_u32) (L := resetting_lapack)
    sample_responses constant_predictors =
    (Returned (Build_LinearRegression (Mat 0 1 [])), constant_predictors) ∧
  n_rows (parameters (Build_LinearRegression (Mat 0 1 ([] : list Z)))) ≠
    n_rows constant_predictors + 1.
Proof.
  split; [|split].
  - unfold mat_wf, mat_fits, n_elem. cbn. lia.
  - vm_compute. reflexivity.
  - cbn. lia.
Qed.

Lemma save_then_load_witness :
  ∃ self2,
    load (St := flat_storage id) sample_model "model.csv"
      (save (St := flat_storage id) sample_model "model.csv" empty_store).2
    = (true, self2,
       (save (St := flat_storage id) sample_model "model.csv" empty_store).2)
    ∧
    n_rows (parameters self2) = 3 ∧ n_cols (parameters self2) = 1 ∧
    Forall2 eq (mem (parameters sample_model)) (mem (parameters self2)).
Proof.
  apply (save_then_load id eq sample_model sample_model "model.csv"
           empty_store);
    [reflexivity | reflexivity].
Defined.

(** [load] and [save] on a store that holds one file and accepts writes to
    that name only: a missing source and an unwritable destination give
    [false] and change nothing in the store. *)
Example load_save_on_sample_store :
  load (St := flat_storage id) sample_model "missing.csv" sample_store =
    (false, Build_LinearRegression (Mat 0 1 []), sample_store) ∧
  load (St := flat_storage id) (Build_LinearRegression empty_mat) "model.csv"
    sample_store = (true, sample_model, sample_store) ∧
  save (St := flat_storage id) sample_model "elsewhere.csv" sample_store =
    (false, sample_model, sample_store) ∧
  (save (St := flat_storage id) sample_model "model.csv" sample_store).1 =
    (true, sample_model).
Proof. repeat split; vm_compute; reflexivity. Qed.

Lemma file_constructor_drops_flag_witness :
  LinearRegression_from_file (St := flat_storage id) "missing.csv" empty_store
    = Build_LinearRegression (Mat 0 1 []) ∧
  ∀ self : LinearRegression Z,
    (load (St := flat_storage id) self "missing.csv" empty_store).1.1 = false.
Proof.
  destruct (file_constructor_drops_flag (St := flat_storage id)
              "missing.csv" empty_store (Mat 0 1 [])) as (Hobj & _ & Hload);
    [reflexivity|].
  split; [exact Hobj|]. intros self. apply (Hload self (Mat 0 1 [])).
  reflexivity.
Defined.

Lemma predict_overwrites_witness :
  predict (T := lp64_u32) sample_model empty_mat sample_points =
  predict (T := lp64_u32) sample_model (Mat 1 5 [9; 9; 9; 9; 9]) sample_points
  ∧
  ∃ out,
    predict (T := lp64_u32) sample_model (Mat 1 5 [9; 9; 9; 9; 9])
      sample_points = Returned (sample_model, out) ∧
    n_rows out = 1 ∧ n_cols out = 2 ∧ Z.of_nat (length (mem out)) = 2 ∧
    ∀ j, 0 ≤ j < 2 →
      elem out j =
      Returned
        (foldl (λ acc k, acc + get (SF := Z_scalar) (parameters sample_model) k 0
                               * get (SF := Z_scalar) sample_points (k - 1) j)
               (0 + 1) (seqZ 1 2)).
Proof.
  destruct (predict_overwrites (SF := Z_scalar) lp64_u32 sample_model
              sample_points) as (Hsame & _ & Hwritten);
    [exact lp64_u32_ok | shape | shape | ].
  split; [apply Hsame|].
  apply (Hwritten ltac:(shape) ltac:(shape) ltac:(reflexivity) ltac:(shape)
           ltac:(reflexivity) (Mat 1 5 [9; 9; 9; 9; 9])).
Defined.

Lemma predict_aborts_iff_witness :
  predict (SF := Z_scalar) (T := lp64_u32) sample_model empty_mat
    (Mat 1 2 [4; 5]) = Aborted.
Proof.
  apply (predict_aborts_iff (SF := Z_scalar) lp64_u32 sample_model empty_mat
           (Mat 1 2 [4; 5]));
    [exact lp64_u32_ok | shape | shape | reflexivity | shape | shape | shape
    | cbn; lia].
Defined.

Lemma fit_throws_keeps_row_witness :
  LinearRegression_fit (SF := Z_scalar) (T := lp64_u32) (L := exact_lapack)
    (Mat 2 1 [0; 5]) sample_predictors =
    (Thrown, Mat 2 3 [1; -1; 1; 0; 1; 1]).
Proof.
  refine (proj1 (fit_throws_keeps_row (L := exact_lapack) lp64_u32
                   (Mat 2 1 [0; 5]) sample_predictors lp64_u32_ok _ _ _));
    [shape | shape | vm_compute; reflexivity].
Defined.

Lemma predict_on_empty_parameters_witness :
  predict (T := lp64_u32) (Build_LinearRegression (Mat 0 1 [])) empty_mat
    sample_points = Aborted.
Proof.
  apply (predict_on_empty_parameters (SF := Z_scalar) lp64_u32
           (Build_LinearRegression (Mat 0 1 [])) empty_mat sample_points);
    [exact lp64_u32_ok | reflexivity | shape | shape].
Defined.

(** ** Fitting and predicting together, on the sample data *)

Lemma sample_contract :
  lapack_contract (L := exact_lapack) sample_responses sample_predictors
    (identity 3) (design sample_predictors) sample_responses (Mat 2 1 [3; 2]).
Proof.
  unfold lapack_contract.
  split; [reflexivity|]. split; [vm_compute; reflexivity|].
  split; [vm_compute; reflexivity|]. split; [vm_compute; reflexivity|].
  split; [vm_compute; reflexivity|]. split; [shape|].
  split; [reflexivity|]. split; [reflexivity|].
  intros _. exists (Mat 3 1 [1; 3; 5]), (Mat 2 1 [9; 4]).
  split; [|split]; vm_compute; reflexivity.
Qed.

Lemma exact_contract :
  lapack_contract (L := exact_lapack) (Mat 3 1 [1; 3; 5]) sample_predictors
    (identity 3) (design sample_predictors) (Mat 3 1 [1; 3; 5])
    (Mat 2 1 [3; 2]).
Proof.
  unfold lapack_contract.
  split; [reflexivity|]. split; [vm_compute; reflexivity|].
  split; [vm_compute; reflexivity|]. split; [vm_compute; reflexivity|].
  split; [vm_compute; reflexivity|]. split; [shape|].
  split; [reflexivity|]. split; [reflexivity|].
  intros _. exists (Mat 3 1 [1; 3; 5]), (Mat 2 1 [9; 4]).
  split; [|split]; vm_compute; reflexivity.
Qed.

Lemma predict_sums_in_index_order_witness :
  ∃ out,
    predict (T := lp64_u32) sample_model empty_mat sample_points
      = Returned (sample_model, out) ∧
    ∀ j, 0 ≤ j < 2 →
      elem out j =
      Returned
        (foldl (λ acc k, acc + get (SF := Z_scalar) (parameters sample_model) k 0
                               * get (SF := Z_scalar) sample_points (k - 1) j)
               (0 + 1) (seqZ 1 2)).
Proof.
  apply (predict_sums_in_index_order (SF := Z_scalar) lp64_u32
           sample_model empty_mat sample_points 2);
    [exact lp64_u32_ok | shape | shape | reflexivity | reflexivity
    | shape | shape | reflexivity].
Defined.

Lemma predict_point_by_point_witness :
  ∃ out out',
    predict (T := lp64_u32) sample_model empty_mat sample_points
      = Returned (sample_model, out) ∧
    predict (T := lp64_u32) sample_model empty_mat (Mat 2 1 [6; 7])
      = Returned (sample_model, out') ∧
    elem out 1 = elem out' 0.
Proof.
  apply (predict_point_by_point (SF := Z_scalar) lp64_u32 sample_model
           empty_mat empty_mat sample_points (Mat 2 1 [6; 7]) 1 0);
    [exact lp64_u32_ok | shape | shape | reflexivity | shape
    | shape | shape | reflexivity | shape | shape | reflexivity
    | shape | shape | ].
  intros k Hk. change (0 ≤ k < 2) in Hk.
  assert (k = 0 ∨ k = 1) as [-> | ->] by lia; reflexivity.
Defined.

Lemma predict_after_failed_load_witness :
  predict (T := lp64_u32)
    (LinearRegression_from_file (St := flat_storage id) "missing.csv"
       empty_store) empty_mat sample_points = Aborted ∧
  ∀ r, predict (T := lp64_u32)
         (LinearRegression_from_file (St := flat_storage id) "missing.csv"
            empty_store) empty_mat sample_points ≠ Returned r.
Proof.
  apply (predict_after_failed_load (St := flat_storage id) lp64_u32
           "missing.csv" empty_store (Mat 0 1 []) empty_mat sample_points);
    [exact lp64_u32_ok | reflexivity | reflexivity | shape | shape].
Defined.

Lemma fit_wrong_length_responses_witness :
  ∃ X',
    LinearRegression_fit (SF := Z_scalar) (T := lp64_u32) (L := exact_lapack)
      (Mat 2 1 [0; 5]) sample_predictors = (Thrown, X') ∧
    n_rows X' = 2 ∧ n_cols X' = 3 ∧
    (∀ j, 0 ≤ j < 3 →
       get X' 0 j = 1 ∧
       ∀ i, 0 ≤ i < 1 → get X' (i + 1) j = get sample_predictors i j).
Proof.
  refine (fit_wrong_length_responses (L := exact_lapack) lp64_u32
            (Mat 2 1 [0; 5]) sample_predictors
            (identity 3) (design sample_predictors) _ _ _ _ _ _);
    [exact lp64_u32_ok | shape | shape | reflexivity | reflexivity
    | cbn; lia].
Defined.

Lemma fitted_model_accepts_same_dimension_witness :
  ∃ obj,
    LinearRegression_fit (SF := Z_scalar) (T := lp64_u32) (L := exact_lapack)
      sample_responses sample_predictors = (Returned obj, sample_predictors) ∧
    (n_rows sample_points ≠ 1 →
       predict (T := lp64_u32) obj empty_mat sample_points = Aborted) ∧
    (n_rows sample_points = 1 →
       ∃ out, predict (T := lp64_u32) obj empty_mat sample_points
                = Returned (obj, out) ∧
              n_rows out = 1 ∧ n_cols out = 2).
Proof.
  apply (fitted_model_accepts_same_dimension (L := exact_lapack) lp64_u32
           sample_responses sample_predictors (Mat 2 1 [3; 2])
           empty_mat sample_points);
    [exact lp64_u32_ok | shape | shape | exact sample_coefficients
    | shape | reflexivity | reflexivity | shape | shape].
Defined.

Lemma predict_is_design_times_parameters_witness :
  ∃ out,
    predict (T := lp64_u32) (Build_LinearRegression (Mat 2 1 [3; 2]))
      empty_mat sample_predictors =
      Returned (Build_LinearRegression (Mat 2 1 [3; 2]), out) ∧
    n_rows out = 1 ∧ n_cols out = 3 ∧
    ∀ j, 0 ≤ j < 3 →
      get out 0 j =
      fsum (SF := Z_scalar) 0 2
        (λ k, get (design sample_predictors) j k * get (Mat 2 1 [3; 2]) k 0).
Proof.
  apply (predict_is_design_times_parameters (OR := Z_ordered_ring) lp64_u32
           (Mat 2 1 [3; 2]) sample_predictors empty_mat);
    [exact lp64_u32_ok | shape | shape | shape | reflexivity | reflexivity].
Defined.

Lemma fit_residuals_sum_to_zero_witness :
  ∃ obj out,
    LinearRegression_fit (SF := Z_scalar) (T := lp64_u32) (L := exact_lapack)
      sample_responses sample_predictors = (Returned obj, sample_predictors) ∧
    predict (T := lp64_u32) obj empty_mat sample_predictors
      = Returned (obj, out) ∧
    fsum (SF := Z_scalar) 0 3
      (λ j, get sample_responses j 0 - get out 0 j) = 0.
Proof.
  apply (fit_residuals_sum_to_zero (OR := Z_ordered_ring) (L := exact_lapack)
           lp64_u32 sample_responses sample_predictors
           (identity 3) (design sample_predictors) sample_responses
           (Mat 2 1 [3; 2]) empty_mat);
    [exact lp64_u32_ok | shape | shape | reflexivity
    | exact sample_contract | exact sample_design_full_rank].
Defined.

Lemma fit_minimizes_training_error_witness :
  ∃ obj out out',
    LinearRegression_fit (SF := Z_scalar) (T := lp64_u32) (L := exact_lapack)
      sample_responses sample_predictors = (Returned obj, sample_predictors) ∧
    predict (T := lp64_u32) obj empty_mat sample_predictors
      = Returned (obj, out) ∧
    predict (T := lp64_u32) (Build_LinearRegression (Mat 2 1 [0; 5]))
      empty_mat sample_predictors
      = Returned (Build_LinearRegression (Mat 2 1 [0; 5]), out') ∧
    squared_error (OR := Z_ordered_ring) 3
      (λ j, get sample_responses j 0) (λ j, get out 0 j) ≤
    squared_error (OR := Z_ordered_ring) 3
      (λ j, get sample_responses j 0) (λ j, get out' 0 j).
Proof.
  apply (fit_minimizes_training_error (OR := Z_ordered_ring)
           (L := exact_lapack) lp64_u32 sample_responses sample_predictors
           (identity 3) (design sample_predictors) sample_responses
           (Mat 2 1 [3; 2]) (Mat 2 1 [0; 5]) empty_mat);
    [exact lp64_u32_ok | shape | shape | reflexivity
    | exact sample_contract | exact sample_design_full_rank
    | shape | reflexivity | reflexivity].
Defined.

Lemma fit_recovers_exact_model_witness :
  LinearRegression_fit (SF := Z_scalar) (T := lp64_u32) (L := exact_lapack)
    (Mat 3 1 [1; 3; 5]) sample_predictors =
    (Returned (Build_LinearRegression (Mat 2 1 [3; 2])), sample_predictors).
Proof.
  apply (fit_recovers_exact_model (OR := Z_ordered_ring) (L := exact_lapack)
           lp64_u32 (Mat 2 1 [3; 2]) (Mat 3 1 [1; 3; 5]) sample_predictors
           (identity 3) (design sample_predictors) (Mat 3 1 [1; 3; 5])
           (Mat 2 1 [3; 2]) empty_mat (Mat 1 3 [1; 3; 5]));
    [exact lp64_u32_ok | shape | shape | reflexivity
    | shape | reflexivity | reflexivity | vm_compute; reflexivity
    | | exact exact_contract | exact sample_design_full_rank].
  intros j Hj. change (0 ≤ j < 3) in Hj.
  assert (j = 0 ∨ j = 1 ∨ j = 2) as [-> | [-> | ->]] by lia; reflexivity.
Defined.
